(** * ponos: the Worker of [src/worker.js]

    A shallow embedding of the [Worker] class: its constructor (option
    validation, whitelisting and defaults), the promise chain of [run]
    (attempt, success, timeout, normalisation, fatal stop, retry with a
    doubling delay) and the monitoring tags of [_eventTags].

    JavaScript objects are finite maps from property names to values
    (stdpp's [gmap string]); the effects of [run] (task and callback
    invocations, reports, logs, metrics, delays) are recorded in a trace
    threaded through a small state monad. *)

From Stdlib Require Import ZArith String Ascii List Lia.
From stdpp Require Import gmap strings list fin_maps pretty.

Set Default Proof Using "Type".
Local Open Scope string_scope.
Local Open Scope Z_scope.
Local Open Scope list_scope.

(** ** JavaScript values *)

Module JS.

(** What [instanceof] and [typeof] can tell about an object.  [CError] is
    any error that is neither a bluebird [TimeoutError] nor an error-cat
    [WorkerStopError] (plain [Error], [TypeError], bluebird's
    [OperationalError], ...).  Arrays, regular expressions and boxed
    primitives are not modelled. *)
Inductive class :=
| CObject | CFunction | CError | CTimeoutError | CWorkerStopError.

(** Numbers are the integers and [NaN]; fractions and infinities are not
    modelled. *)
#[warnings="-register-all"]
Inductive value :=
| VUndefined
| VNull
| VBool (b : bool)
| VNum (z : Z)
| VNaN
| VStr (s : string)
| VObj (c : class) (fields : gmap string value).

(** The result of evaluating code that may [throw]. *)
Inductive completion (A : Type) :=
| Normal (a : A)
| Throw (e : value).
Arguments Normal {A} a.
Arguments Throw {A} e.

Definition cbind {A B} (m : completion A) (k : A -> completion B) : completion B :=
  match m with
  | Normal a => k a
  | Throw e => Throw e
  end.

Notation "'let?' x ':=' m 'in' k" := (cbind m (fun x => k))
  (at level 10, x name, m at level 100, k at level 200).

(** ToBoolean. *)
Definition truthy (v : value) : bool :=
  match v with
  | VUndefined | VNull | VNaN => false
  | VBool b => b
  | VNum z => negb (z =? 0)
  | VStr s => negb (String.eqb s "")
  | VObj _ _ => true
  end.

(** [a || b] *)
Definition or_else (a b : value) : value := if truthy a then a else b.

(** [new Error(msg)], [new TypeError(msg)] *)
Definition new_Error (msg : string) : value :=
  VObj CError {[ "message" := VStr msg ]}.

Definition new_TypeError (msg : string) : value :=
  VObj CError (<[ "name" := VStr "TypeError" ]> {[ "message" := VStr msg ]}).

(** [o[k]] for the fields [o] of an object: a missing property reads as
    [undefined]. *)
Definition prop (o : gmap string value) (k : string) : value :=
  default VUndefined (o !! k).

(** The properties of an object; a primitive has none. *)
Definition fields (v : value) : gmap string value :=
  match v with
  | VObj _ f => f
  | _ => ∅
  end.

(** [v[k]]: reading a property of [undefined] or [null] throws; a
    primitive has none of the properties read by the worker. *)
Definition get (v : value) (k : string) : completion value :=
  match v with
  | VUndefined | VNull => Throw (new_TypeError "Cannot read property of undefined or null")
  | VObj _ f => Normal (prop f k)
  | _ => Normal VUndefined
  end.

(** [v[k] = x] under ['use strict']: only objects take properties. *)
Definition set (v : value) (k : string) (x : value) : completion value :=
  match v with
  | VObj c f => Normal (VObj c (<[ k := x ]> f))
  | VUndefined | VNull => Throw (new_TypeError "Cannot set property of undefined or null")
  | _ => Throw (new_TypeError "Cannot create property on a primitive")
  end.

Definition instanceof (v : value) (c : class) : bool :=
  match v, c with
  | VObj CTimeoutError _, CTimeoutError => true
  | VObj CWorkerStopError _, CWorkerStopError => true
  | _, _ => false
  end.

(** [a < n] for a number [a]; a comparison with [NaN] is false. *)
Definition less_than (a : value) (n : Z) : bool :=
  match a with
  | VNum z => z <? n
  | _ => false
  end.

(** *** [parseInt] *)

Definition is_white_space (c : ascii) : bool :=
  let n := nat_of_ascii c in
  ((9 <=? n) && (n <=? 13))%nat || (n =? 32)%nat.

Fixpoint trim_start (s : string) : string :=
  match s with
  | String c s' => if is_white_space c then trim_start s' else s
  | EmptyString => s
  end.

Definition digit_value (c : ascii) : option Z :=
  let n := Z.of_nat (nat_of_ascii c) in
  if (48 <=? n) && (n <=? 57) then Some (n - 48)
  else if (97 <=? n) && (n <=? 122) then Some (n - 87)
  else if (65 <=? n) && (n <=? 90) then Some (n - 55)
  else None.

(** The longest prefix of radix-[r] digits, read as an integer; [acc] is
    [None] until a digit has been seen. *)
Fixpoint parse_digits (r : Z) (s : string) (acc : option Z) : option Z :=
  match s with
  | String c s' =>
      match digit_value c with
      | Some d =>
          if d <? r then parse_digits r s' (Some (default 0 acc * r + d)) else acc
      | None => acc
      end
  | EmptyString => acc
  end.

Definition strip_sign (s : string) : Z * string :=
  match s with
  | String "-" s' => (-1, s')
  | String "+" s' => (1, s')
  | _ => (1, s)
  end.

Definition strip_hex_prefix (s : string) : option string :=
  match s with
  | String "0" (String "x" s') | String "0" (String "X" s') => Some s'
  | _ => None
  end.

(** [parseInt(s, radix)] on a string; [radix = None] is a call without the
    second argument. *)
Definition parseInt_string (s : string) (radix : option Z) : value :=
  let '(sign, s1) := strip_sign (trim_start s) in
  let r0 := default 0 radix in
  if negb (r0 =? 0) && ((r0 <? 2) || (36 <? r0)) then VNaN
  else
    let '(r, s2) :=
      if (r0 =? 0) || (r0 =? 16) then
        match strip_hex_prefix s1 with
        | Some s' => (16, s')
        | None => (if r0 =? 0 then 10 else r0, s1)
        end
      else (r0, s1) in
    match parse_digits r s2 None with
    | Some n => VNum (sign * n)
    | None => VNaN
    end.

(** [parseInt(v, radix)]: the argument is first turned into a string.  An
    integer (below 10^21) prints as its decimal digits, which read back as
    the same integer; ["NaN"], ["true"], ["undefined"], ["null"] and the built-in
    string forms of objects and functions have no leading digit. *)
Definition parseInt (v : value) (radix : option Z) : value :=
  match v with
  | VStr s => parseInt_string s radix
  | VNum z => if (default 0 radix =? 0) || (default 0 radix =? 10) then VNum z
              else parseInt_string (pretty z) radix
  | _ => VNaN
  end.

End JS.
Export JS.

(** ** The helpers of the [101] package used by the worker *)

Module Lib101.

(** [exists(v)]: [v !== undefined && v !== null] *)
Definition exists_ (v : value) : bool :=
  match v with
  | VUndefined | VNull => false
  | _ => true
  end.

(** [isNumber(v)]: a number other than [NaN] *)
Definition isNumber (v : value) : bool :=
  match v with
  | VNum _ => true
  | _ => false
  end.

(** [isObject(v)]: [typeof v === 'object'], not [null] *)
Definition isObject (v : value) : bool :=
  match v with
  | VObj CFunction _ => false
  | VObj _ _ => true
  | _ => false
  end.

(** [pick(obj, keys)]: a new object with the listed keys that are in
    [obj]; [copy(from, to)] is its per-key step. *)
Definition copy (from to : gmap string value) (key : string) : gmap string value :=
  match from !! key with
  | Some v => <[ key := v ]> to
  | None => to
  end.

Definition pick (obj : gmap string value) (keys : list string) : gmap string value :=
  foldl (copy obj) ∅ keys.

(** [defaults(target, source)]: every key of [source] whose value in
    [target] does not exist is set from [source] *)
Definition default_key (obj : gmap string value) (kv : string * value)
  : gmap string value :=
  if exists_ (prop obj kv.1) then obj else <[ kv.1 := kv.2 ]> obj.

Definition defaults (target : gmap string value) (source : list (string * value))
  : gmap string value :=
  foldl default_key target source.

(** [put(obj, extra)]: a copy of [obj] with the keys of [extra] set *)
Definition put {A} (obj extra : gmap string A) : gmap string A := extra ∪ obj.

End Lib101.
Export Lib101.

(** ** Strings: [split], [join] *)

Module Str.

(** [s.split(sep)] for a one-character separator *)
Fixpoint split (sep : ascii) (s : string) : list string :=
  match s with
  | EmptyString => [EmptyString]
  | String c s' =>
      if Ascii.eqb c sep then EmptyString :: split sep s'
      else match split sep s' with
           | h :: t => String c h :: t
           | [] => [String c EmptyString]
           end
  end.

(** [parts.join(sep)] *)
Fixpoint join (sep : string) (parts : list string) : string :=
  match parts with
  | [] => ""
  | [p] => p
  | p :: rest => p +:+ sep +:+ join sep rest
  end.

End Str.

(** ** The Worker *)

Module Worker.

(** [process.env]: variables that are set hold strings. *)
Definition getenv (env : gmap string string) (name : string) : value :=
  match env !! name with
  | Some s => VStr s
  | None => VUndefined
  end.

(** *** [_eventTags] *)

(** ['token' + currentIndex] *)
Definition token_key (currentIndex : nat) : string := "token" +:+ pretty currentIndex.

(** The callback of [tokens.reduce]; [lastToken] is the variable the
    callback closes over. *)
Definition tag_step (st : gmap string string * string) (currentValue : string)
    (currentIndex : nat) : gmap string string * string :=
  let '(acc, lastToken) := st in
  let key := token_key currentIndex in
  let newToken :=
    if (currentIndex =? 0)%nat then currentValue
    else currentValue +:+ "." +:+ lastToken in
  (<[ key := newToken ]> acc, newToken).

Fixpoint reduce_from (tokens : list string) (currentIndex : nat)
    (st : gmap string string * string) : gmap string string * string :=
  match tokens with
  | [] => st
  | currentValue :: rest =>
      reduce_from rest (S currentIndex) (tag_step st currentValue currentIndex)
  end.

Definition _eventTags (queue : string) : gmap string string :=
  let tokens := rev (Str.split "." queue) in
  let tags := (reduce_from tokens 0%nat (∅, "")).1 in
  <[ "queue" := queue ]> tags.

(** *** The constructor *)

Definition required_fields : list string := ["done"; "job"; "log"; "queue"; "task"].

Definition managed_fields : list string :=
  required_fields ++ ["errorCat"; "log"; "msTimeout"; "runNow"].

(** The body of [fields.forEach]: the first required option that does not
    exist throws. *)
Fixpoint check_required (fields : list string) (opts : gmap string value)
  : completion unit :=
  match fields with
  | [] => Normal tt
  | f :: rest =>
      if exists_ (prop opts f) then check_required rest opts
      else Throw (new_Error (f +:+ " is required for a Worker"))
  end.

(** The process-wide instance exported by [error-cat]. *)
Definition errorCat : value :=
  VObj CObject {[ "report" := VObj CFunction ∅ ]}.

Definition option_defaults (env : gmap string string) : list (string * value) :=
  [ ("errorCat", errorCat);
    ("runNow", VBool true);
    ("attempt", VNum 0);
    ("msTimeout", or_else (getenv env "WORKER_TIMEOUT") (VNum 0));
    ("retryDelay", or_else (getenv env "WORKER_MIN_RETRY_DELAY") (VNum 1)) ].

Section Constructor.

(** [log.child(fields)] of the logger handed to the worker, and the
    identifier the next call of [uuid()] returns. *)
Variable child : value -> value -> value.
Variable uuid : string.

(** [new Worker(opts)] returns the object [this] as it is when the
    constructor reaches [if (this.runNow)], with the value of that test:
    whether [this.run()] is called before the constructor returns.  The
    ['Worker created'] entry written to the log is not recorded. *)
Definition constructor (env : gmap string string) (opts : gmap string value)
  : completion (gmap string value * bool) :=
  let? _ := check_required required_fields opts in
  let opts := pick opts managed_fields in
  let opts := defaults opts (option_defaults env) in
  let? job_tid := get (prop opts "job") "tid" in
  let tid := or_else job_tid (VStr uuid) in
  let log := child (prop opts "log")
               (VObj CObject (<[ "tid" := tid ]> {[ "module" := VStr "ponos:worker" ]})) in
  let opts := <[ "log" := log ]> opts in
  let this := opts ∪ {[ "tid" := tid ]} in
  let msTimeout := parseInt (prop this "msTimeout") (Some 10) in
  let this := <[ "msTimeout" := msTimeout ]> this in
  if negb (isNumber msTimeout) then
    Throw (new_Error "Provided `msTimeout` is not an integer")
  else if less_than msTimeout 0 then
    Throw (new_Error "Provided `msTimeout` is negative")
  else Normal (this, truthy (prop this "runNow")).

(** The options after the defaults, as the caller sees them: what
    [msTimeout] is parsed from, and what [runNow] is tested on. *)
Definition timeout_option (env : gmap string string) (opts : gmap string value)
  : value :=
  if exists_ (prop opts "msTimeout") then prop opts "msTimeout"
  else or_else (getenv env "WORKER_TIMEOUT") (VNum 0).

Definition runNow_option (opts : gmap string value) : value :=
  if exists_ (prop opts "runNow") then prop opts "runNow" else VBool true.

(** Every required option is given. *)
Definition all_required (opts : gmap string value) : Prop :=
  Forall (fun f => exists_ (prop opts f) = true) required_fields.

End Constructor.

(** *** The state and the effects of [run] *)

Inductive level := LInfo | LWarn | LError.

(** The calls [run] makes to its collaborators, in the order it makes
    them. *)
Inductive event :=
| EvLog (l : level) (fields : list (string * value)) (msg : string)
| EvIncrement (name : string) (tags : gmap string string)
| EvTimer (name : string) (tags : gmap string string)
| EvTimerStop
| EvClsSet (key : string) (v : value)
| EvTask (job : value)
| EvDone
| EvReport (err : value)
| EvDelay (ms : Z).

(** What one call of the task amounts to: a result, a failure (the reason
    is the one [Promise.fromCallback] rejects with), or nothing by the time
    a timeout would fire. *)
Inductive task_result :=
| Returns (v : value)
| Fails (reason : value)
| Unfinished.

(** The surroundings of a worker: the environment variables, and what the
    n-th call of the task and of the completion callback do. *)
Record behaviour := {
  env : gmap string string;
  task : nat -> task_result;
  done : nat -> completion value
}.

(** The fields of the instance that [run] reads and writes, at the types
    the class declares for them ([attempt: number], [retryDelay: number],
    [queue: String]).  The constructor leaves in [retryDelay] the string of
    the environment variable when it is set; [run] is modelled from the
    point where it holds a number. *)
Record worker := {
  attempt : Z;
  job : value;
  msTimeout : Z;
  queue : string;
  retryDelay : Z;
  tid : value
}.

Record world := {
  this : worker;
  task_calls : nat;
  done_calls : nat;
  trace : list event
}.

Definition M (A : Type) : Type := world -> A * world.

Definition ret {A} (a : A) : M A := fun w => (a, w).

Definition bind {A B} (m : M A) (k : A -> M B) : M B :=
  fun w => let '(a, w') := m w in k a w'.

Notation "'let*' x ':=' m 'in' k" := (bind m (fun x => k))
  (at level 10, x name, m at level 100, k at level 200).

Definition emit (e : event) : M unit :=
  fun w => (tt, {| this := this w; task_calls := task_calls w;
                   done_calls := done_calls w; trace := trace w ++ [e] |}).

Definition read : M worker := fun w => (this w, w).

Definition write (t : worker) : M unit :=
  fun w => (tt, {| this := t; task_calls := task_calls w;
                   done_calls := done_calls w; trace := trace w |}).

(** [this.attempt++] *)
Definition post_increment_attempt : M Z :=
  let* t := read in
  let* _ := write {| attempt := attempt t + 1; job := job t; msTimeout := msTimeout t;
                     queue := queue t; retryDelay := retryDelay t; tid := tid t |} in
  ret (attempt t).

Definition set_retryDelay (d : Z) : M unit :=
  let* t := read in
  write {| attempt := attempt t; job := job t; msTimeout := msTimeout t;
           queue := queue t; retryDelay := d; tid := tid t |}.

(** [this.task(this.job)] *)
Definition call_task (b : behaviour) : M task_result :=
  let* t := read in
  let* _ := emit (EvTask (job t)) in
  fun w => (task b (task_calls w),
            {| this := this w; task_calls := S (task_calls w);
               done_calls := done_calls w; trace := trace w |}).

(** [this.done()] *)
Definition call_done (b : behaviour) : M (completion value) :=
  let* _ := emit EvDone in
  fun w => (done b (done_calls w),
            {| this := this w; task_calls := task_calls w;
               done_calls := S (done_calls w); trace := trace w |}).

(** [_reportError] *)
Definition _reportError (err : value) : M unit := emit (EvReport err).

Definition monitor_disabled (b : behaviour) : bool :=
  truthy (getenv (env b) "WORKER_MONITOR_DISABLED").

(** [_incMonitor] *)
Definition _incMonitor (b : behaviour) (eventName : string)
    (extraTags : option (gmap string string)) : M unit :=
  if monitor_disabled b then ret tt
  else
    let* t := read in
    let tags := _eventTags (queue t) in
    let tags := match extraTags with
                | Some extra => put tags extra
                | None => tags
                end in
    emit (EvIncrement eventName tags).

(** [_createTimer]: whether a timer was made *)
Definition _createTimer (b : behaviour) : M bool :=
  let* t := read in
  let tags := _eventTags (queue t) in
  if negb (monitor_disabled b) then
    let* _ := emit (EvTimer "ponos.timer" tags) in ret true
  else ret false.

(** *** Promises *)

(** A promise as its handlers find it.  [Pending] never settles;
    [OutOfFuel] stands for a promise whose settlement lies beyond the
    number of attempts unfolded. *)
Inductive promise :=
| Fulfilled (v : value)
| Rejected (reason : value)
| Pending
| OutOfFuel.

Definition settle (c : completion value) : promise :=
  match c with
  | Normal v => Fulfilled v
  | Throw e => Rejected e
  end.

(** [.then(h)] *)
Definition then_ (h : value -> M promise) (p : promise) : M promise :=
  match p with
  | Fulfilled v => h v
  | _ => ret p
  end.

(** [.catch(h)] and [.catch(Class, h)] *)
Definition catch_ (filter : value -> bool) (h : value -> M promise) (p : promise)
  : M promise :=
  match p with
  | Rejected e => if filter e then h e else ret p
  | _ => ret p
  end.

(** [.finally(h)] *)
Definition finally_ (h : M unit) (p : promise) : M promise :=
  match p with
  | Fulfilled _ | Rejected _ => let* _ := h in ret p
  | _ => ret p
  end.

Definition any (_ : value) : bool := true.

(** bluebird's [new TimeoutError('operation timed out')] *)
Definition TimeoutError : value :=
  VObj CTimeoutError {[ "message" := VStr "operation timed out" ]}.

(** *** The handlers of the chain in [run] *)

(** The promise of one call of the task, with [.timeout(this.msTimeout)]
    chained when [this.msTimeout] is truthy: a task still unfinished when
    the timeout elapses rejects with a [TimeoutError]; without a timeout
    the promise stays pending. *)
Definition settle_attempt (t : worker) (r : task_result) : promise :=
  match r with
  | Returns v => Fulfilled v
  | Fails e => Rejected e
  | Unfinished => if truthy (VNum (msTimeout t)) then Rejected TimeoutError else Pending
  end.

(** The function handed to [Promise.fromCallback]: one attempt. *)
Definition start_attempt (b : behaviour) : M promise :=
  let* t := read in
  let* _ := emit (EvClsSet "tid" (tid t)) in
  let* n := post_increment_attempt in
  let* _ := emit (EvLog LInfo [("attempt", VNum n); ("timeout", VNum (msTimeout t))]
                    "running task") in
  let* r := call_task b in
  ret (settle_attempt t r).

(** [.then((result) => ...)] *)
Definition on_success (b : behaviour) (result : value) : M promise :=
  let* _ := emit (EvLog LInfo [("result", result)] "Task complete") in
  let* _ := _incMonitor b "ponos.finish" (Some {[ "result" := "success" ]}) in
  let* r := call_done b in
  ret (settle r).

(** [.catch(TimeoutError, (err) => ...)] *)
Definition on_timeout (b : behaviour) (err : value) : M promise :=
  let* _ := emit (EvLog LWarn [("err", err)] "Task timed out") in
  let* _ := _incMonitor b "ponos.finish" (Some {[ "result" := "timeout-error" ]}) in
  ret (Rejected err).

(** [err.data[k] = x]; [data] is the object [err.data] holds. *)
Definition set_data (err data : value) (k : string) (x : value) : completion value :=
  let? data' := set data k x in
  set err "data" data'.

(** [if (err.cause) { err = err.cause }] *)
Definition unwrap (err : value) : completion value :=
  let? cause := get err "cause" in
  Normal (if truthy cause then cause else err).

(** The body of the first [.catch((err) => ...)]: it ends in [throw err],
    unless a property access throws before. *)
Definition normalize (t : worker) (err : value) : completion value :=
  let? err := unwrap err in
  let? data := get err "data" in
  let? err := (if negb (isObject data) then set err "data" (VObj CObject ∅)
               else Normal err) in
  let? data := get err "data" in
  let? q := get data "queue" in
  let? err := (if negb (truthy q) then set_data err data "queue" (VStr (queue t))
               else Normal err) in
  let? data := get err "data" in
  let? j := get data "job" in
  let? err := (if negb (truthy j) then set_data err data "job" (job t)
               else Normal err) in
  Throw err.

Definition on_error (err : value) : M promise :=
  let* t := read in
  ret (settle (normalize t err)).

(** [.catch(WorkerStopError, (err) => ...)] *)
Definition on_stop (b : behaviour) (err : value) : M promise :=
  let* _ := emit (EvLog LError [("err", err)] "Worker task fatally errored") in
  let* _ := _incMonitor b "ponos.finish" (Some {[ "result" := "fatal-error" ]}) in
  let* _ := _reportError err in
  let* r := call_done b in
  ret (settle r).

(** [parseInt(process.env.WORKER_MAX_RETRY_DELAY) || 0] *)
Definition max_retry_delay (b : behaviour) : Z :=
  match or_else (parseInt (getenv (env b) "WORKER_MAX_RETRY_DELAY") None) (VNum 0) with
  | VNum n => n
  | _ => 0
  end.

(** The update of [this.retryDelay] once the delay has elapsed. *)
Definition next_retryDelay (max current : Z) : Z :=
  if current <? max then current * 2 else current.

(** The last [.catch((err) => ...)]; [rerun] is [this.run()]. *)
Definition on_failure (b : behaviour) (rerun : M promise) (err : value) : M promise :=
  let* t := read in
  let* _ := emit (EvLog LWarn [("err", err); ("nextAttemptDelay", VNum (retryDelay t))]
                    "Task failed, retrying") in
  let* _ := _incMonitor b "ponos.finish" (Some {[ "result" := "task-error" ]}) in
  let* _ := _reportError err in
  let* _ := emit (EvDelay (retryDelay t)) in
  let* _ := set_retryDelay (next_retryDelay (max_retry_delay b) (retryDelay t)) in
  rerun.

Definition stop_timer (timer : bool) : M unit :=
  if timer then emit EvTimerStop else ret tt.

(** [run]: [fuel] bounds the number of attempts unfolded. *)
Fixpoint run (b : behaviour) (fuel : nat) : M promise :=
  match fuel with
  | O => ret OutOfFuel
  | S fuel' =>
      let* _ := _incMonitor b "ponos" None in
      let* timer := _createTimer b in
      let* p := start_attempt b in
      let* p := then_ (on_success b) p in
      let* p := catch_ (fun e => instanceof e CTimeoutError) (on_timeout b) p in
      let* p := catch_ any on_error p in
      let* p := catch_ (fun e => instanceof e CWorkerStopError) (on_stop b) p in
      let* p := catch_ any (on_failure b (run b fuel')) p in
      finally_ (stop_timer timer) p
  end.

(** *** What a run shows to the task, the callback, the error sink and
    the clock *)

Definition observable (e : event) : bool :=
  match e with
  | EvTask _ | EvDone | EvReport _ | EvDelay _ => true
  | _ => false
  end.

Definition observe (tr : list event) : list event := List.filter observable tr.

(** The number of task invocations, of callback invocations, the errors
    reported and the delays waited for, in order. *)
Definition tasks (tr : list event) : nat :=
  length (List.filter (fun e => match e with EvTask _ => true | _ => false end) tr).

Definition dones (tr : list event) : nat :=
  length (List.filter (fun e => match e with EvDone => true | _ => false end) tr).

Definition reports (tr : list event) : list value :=
  omap (fun e => match e with EvReport err => Some err | _ => None end) tr.

Definition delays (tr : list event) : list Z :=
  omap (fun e => match e with EvDelay ms => Some ms | _ => None end) tr.

(** The attempts from the [n]-th call of the task on reject, with reasons
    that [normalize] turns into the errors [errs], none of them a
    [WorkerStopError]. *)
Fixpoint fails_retryably (b : behaviour) (t : worker) (n : nat) (errs : list value)
  : Prop :=
  match errs with
  | [] => True
  | err :: rest =>
      (exists reason, settle_attempt t (task b n) = Rejected reason
                      /\ normalize t reason = Throw err)
      /\ instanceof err CWorkerStopError = false
      /\ fails_retryably b t (S n) rest
  end.

(** What [errs] retried failures show, starting with the delay [d]. *)
Fixpoint retry_events (j : value) (max d : Z) (errs : list value) : list event :=
  match errs with
  | [] => []
  | err :: rest =>
      EvTask j :: EvReport err :: EvDelay d
        :: retry_events j max (next_retryDelay max d) rest
  end.

(** The instance after a failure has been retried. *)
Definition retried (max : Z) (t : worker) : worker :=
  {| attempt := attempt t + 1; job := job t; msTimeout := msTimeout t;
     queue := queue t; retryDelay := next_retryDelay max (retryDelay t);
     tid := tid t |}.

(** The instance after an attempt that was not retried. *)
Definition attempted (t : worker) : worker :=
  {| attempt := attempt t + 1; job := job t; msTimeout := msTimeout t;
     queue := queue t; retryDelay := retryDelay t; tid := tid t |}.

(** A worker that has not run yet. *)
Definition fresh (t : worker) : world :=
  {| this := t; task_calls := 0; done_calls := 0; trace := [] |}.

(** How a run whose [n] first attempts were retried goes on: the next
    attempt succeeds, or fails with what [normalize] turns into a
    [WorkerStopError], or never settles, or lies beyond the fuel. *)
Inductive ending (b : behaviour) (t : worker) (n : nat) : promise -> list event -> Prop :=
| ending_success v r :
    settle_attempt t (task b n) = Fulfilled v ->
    ending b t n (Fulfilled r) [EvTask (job t); EvDone]
| ending_stop reason err r :
    settle_attempt t (task b n) = Rejected reason ->
    normalize t reason = Throw err ->
    instanceof err CWorkerStopError = true ->
    ending b t n (Fulfilled r) [EvTask (job t); EvReport err; EvDone]
| ending_pending :
    settle_attempt t (task b n) = Pending ->
    ending b t n Pending [EvTask (job t)]
| ending_fuel :
    ending b t n OutOfFuel [].

(** The messages logged, in order. *)
Definition messages (tr : list event) : list string :=
  omap (fun e => match e with EvLog _ _ msg => Some msg | _ => None end) tr.

(** What the two guarded assignments of [normalize] make of the
    properties [d] of [err.data]. *)
Definition with_context (t : worker) (d : gmap string value) : gmap string value :=
  let d1 := if truthy (prop d "queue") then d else <[ "queue" := VStr (queue t) ]> d in
  if truthy (prop d1 "job") then d1 else <[ "job" := job t ]> d1.

(** The classification of a raised error in the words of the
    specification: the fatal check first, then the timeout check, on the
    error as raised. *)
Inductive classification := Timeout | Fatal | Retryable.

Definition spec_classify (reason : value) : classification :=
  if instanceof reason CWorkerStopError then Fatal
  else if instanceof reason CTimeoutError then Timeout
  else Retryable.

(** A computation that only adds to the trace. *)
Definition grows {A} (m : M A) : Prop :=
  forall w, exists evs, trace (m w).2 = trace w ++ evs.

(** The delay rule in the words of the specification: doubled and clamped
    to a positive maximum, doubled without bound when the maximum is 0; and
    the delay before attempt [i + 1] that the specification derives. *)
Definition spec_next_delay (max current : Z) : Z :=
  if 0 <? max then Z.min (current * 2) max else current * 2.

Definition spec_delay_before (initial max : Z) (i : nat) : Z :=
  Z.min (initial * 2 ^ (Z.of_nat i - 1)) max.

(** The completion callback returns normally whenever it is called. *)
Definition done_returns (b : behaviour) : Prop :=
  forall n, exists v, done b n = Normal v.

End Worker.

Import Worker.

(** ** The effects of the handlers, and assertions on computations *)

(** The world with more events in its trace. *)
Definition extend (w : world) (evs : list event) : world :=
  {| this := this w; task_calls := task_calls w; done_calls := done_calls w;
     trace := trace w ++ evs |}.

(** What [_incMonitor] and [_createTimer] hand to [monitor-dog]. *)
Definition increment_events (b : behaviour) (t : worker) (eventName : string)
    (extraTags : option (gmap string string)) : list event :=
  if monitor_disabled b then []
  else [EvIncrement eventName
          match extraTags with
          | Some extra => put (_eventTags (queue t)) extra
          | None => _eventTags (queue t)
          end].

Definition timer_events (b : behaviour) (t : worker) : list event :=
  if monitor_disabled b then [] else [EvTimer "ponos.timer" (_eventTags (queue t))].

(** The log entry of an attempt. *)
Definition running_task (t : worker) : event :=
  EvLog LInfo [("attempt", VNum (attempt t)); ("timeout", VNum (msTimeout t))]
    "running task".

(** The world after [start_attempt], after [on_success], [on_timeout] and
    [on_stop], and the world in which [on_failure] runs the worker again. *)
Definition after_attempt (w : world) : world :=
  {| this := attempted (this w); task_calls := S (task_calls w);
     done_calls := done_calls w;
     trace := trace w ++ [EvClsSet "tid" (tid (this w)); running_task (this w);
                          EvTask (job (this w))] |}.

Definition after_success (b : behaviour) (w : world) (result : value) : world :=
  {| this := this w; task_calls := task_calls w; done_calls := S (done_calls w);
     trace := trace w
              ++ EvLog LInfo [("result", result)] "Task complete"
                 :: increment_events b (this w) "ponos.finish"
                      (Some {[ "result" := "success" ]})
              ++ [EvDone] |}.

Definition after_timeout (b : behaviour) (w : world) (err : value) : world :=
  extend w (EvLog LWarn [("err", err)] "Task timed out"
              :: increment_events b (this w) "ponos.finish"
                   (Some {[ "result" := "timeout-error" ]})).

Definition after_stop (b : behaviour) (w : world) (err : value) : world :=
  {| this := this w; task_calls := task_calls w; done_calls := S (done_calls w);
     trace := trace w
              ++ EvLog LError [("err", err)] "Worker task fatally errored"
                 :: increment_events b (this w) "ponos.finish"
                      (Some {[ "result" := "fatal-error" ]})
              ++ [EvReport err; EvDone] |}.

Definition after_failure (b : behaviour) (w : world) (err : value) : world :=
  {| this := {| attempt := attempt (this w); job := job (this w);
                msTimeout := msTimeout (this w); queue := queue (this w);
                retryDelay := next_retryDelay (max_retry_delay b) (retryDelay (this w));
                tid := tid (this w) |};
     task_calls := task_calls w; done_calls := done_calls w;
     trace := trace w
              ++ EvLog LWarn [("err", err);
                              ("nextAttemptDelay", VNum (retryDelay (this w)))]
                   "Task failed, retrying"
                 :: increment_events b (this w) "ponos.finish"
                      (Some {[ "result" := "task-error" ]})
              ++ [EvReport err; EvDelay (retryDelay (this w))] |}.

(** From a world where [P] holds, [m] returns a value and a world where
    [Q] holds; [keeps I m]: [m] keeps the invariant [I]. *)
Definition hoare {A} (P : world -> Prop) (m : M A) (Q : A -> world -> Prop) : Prop :=
  forall w, P w -> Q (m w).1 (m w).2.

Definition keeps {A} (I : world -> Prop) (m : M A) : Prop :=
  hoare I m (fun _ => I).

(** A promise that has been fulfilled or rejected. *)
Definition settled (p : promise) : bool :=
  match p with
  | Fulfilled _ | Rejected _ => true
  | _ => false
  end.

(** The events handed to [monitor-dog]; the timers made and stopped. *)
Definition is_monitor (e : event) : bool :=
  match e with
  | EvIncrement _ _ | EvTimer _ _ | EvTimerStop => true
  | _ => false
  end.

Definition timer_starts (tr : list event) : nat :=
  length (List.filter (fun e => match e with EvTimer _ _ => true | _ => false end) tr).

Definition timer_stops (tr : list event) : nat :=
  length (List.filter (fun e => match e with EvTimerStop => true | _ => false end) tr).


(** The values of the [result] tag. *)
Definition finish_results : list string :=
  ["success"; "timeout-error"; "fatal-error"; "task-error"].

(** An increment of [ponos] carries the tags of the queue [q], an increment
    of [ponos.finish] these and a [result]; a timer is [ponos.timer] with
    the tags of [q]. *)
Definition tagged (q : string) (e : event) : Prop :=
  match e with
  | EvIncrement name tags =>
      (name = "ponos" /\ tags = _eventTags q)
      \/ (name = "ponos.finish"
          /\ exists r, r ∈ finish_results /\ tags = <[ "result" := r ]> (_eventTags q))
  | EvTimer name tags => name = "ponos.timer" /\ tags = _eventTags q
  | _ => True
  end.

(** The log entries of successful attempts and of fatal errors. *)
Definition completions (tr : list event) : nat :=
  length (List.filter (fun e => match e with
                                | EvLog LInfo _ "Task complete" => true
                                | _ => false
                                end) tr).

Definition fatal_errors (tr : list event) : nat :=
  length (List.filter (fun e => match e with EvLog LError _ _ => true | _ => false end) tr).

(** The attempt numbers logged, in order. *)
Definition logged_attempts (tr : list event) : list value :=
  omap (fun e => match e with
                 | EvLog LInfo (("attempt", n) :: _) "running task" => Some n
                 | _ => None
                 end) tr.

(** The counts of a trace, in one list: calls of the task, calls of the
    callback, reports, delays, successful attempts and fatal errors logged,
    timers made, timers stopped. *)
Definition measures (tr : list event) : list nat :=
  [tasks tr; dones tr; length (reports tr); length (delays tr); completions tr;
   fatal_errors tr; timer_starts tr; timer_stops tr].

(** ** Sample inputs *)

Module Samples.

(** A logger whose [child] is the logger itself. *)
Definition child (log bindings : value) : value := log.

Definition fn : value := VObj CFunction ∅.

Definition logger : value := VObj CObject {[ "child" := fn ]}.

(** [{ done, job: { tid: 'job-7' }, log, queue: 'api.github.push', task,
      msTimeout: '250' }] *)
Definition opts_ok : gmap string value :=
  <[ "done" := fn ]> (<[ "job" := VObj CObject {[ "tid" := VStr "job-7" ]} ]>
  (<[ "log" := logger ]> (<[ "queue" := VStr "api.github.push" ]>
  (<[ "task" := fn ]> {[ "msTimeout" := VStr "250" ]})))).

(** The same with the internal fields passed as options. *)
Definition opts_forged : gmap string value :=
  <[ "attempt" := VNum 7 ]> (<[ "retryDelay" := VNum 60000 ]>
  (<[ "tid" := VStr "forged" ]> opts_ok)).

(** A worker on queue [api.github.push] whose retry delay is 3 ms. *)
Definition payload : value := VObj CObject {[ "id" := VNum 1 ]}.

Definition worker3 : worker :=
  {| attempt := 0; job := payload; msTimeout := 0; queue := "api.github.push";
     retryDelay := 3; tid := VStr "job-7" |}.

(** [new Error('boom')] as the task raises it and as it is reported. *)
Definition boom : value := VObj CError {[ "message" := VStr "boom" ]}.

Definition boom_reported : value :=
  VObj CError
    (<[ "data" := VObj CObject (<[ "job" := payload ]>
                                  {[ "queue" := VStr "api.github.push" ]}) ]>
       {[ "message" := VStr "boom" ]}).

(** bluebird's [OperationalError] around [cause], as [Promise.fromCallback]
    rejects with for a plain error. *)
Definition wrapped (cause : value) : value :=
  VObj CError (<[ "cause" := cause ]> (<[ "isOperational" := VBool true ]>
                 {[ "message" := prop (fields cause) "message" ]})).

(** A task that fails [k] times with [boom] and then returns, with a
    callback that returns, under [WORKER_MAX_RETRY_DELAY=4]. *)
Definition flaky (k : nat) : behaviour :=
  {| env := {[ "WORKER_MAX_RETRY_DELAY" := "4" ]};
     task := fun n => if (n <? k)%nat then Fails (wrapped boom)
                      else Returns (VStr "ok");
     done := fun _ => Normal VUndefined |}.

(** An error whose data names another queue and no job. *)
Definition boom_elsewhere : value :=
  VObj CError (<[ "data" := VObj CObject {[ "queue" := VStr "other.queue" ]} ]>
                 {[ "message" := VStr "boom" ]}).

(** An error whose data holds the job payload [0] and the queue name [''],
    with a note. *)
Definition boom_falsy : value :=
  VObj CError
    {[ "data" := VObj CObject (<[ "job" := VNum 0 ]> (<[ "queue" := VStr "" ]>
                                 {[ "note" := VStr "kept" ]})) ]}.

(** [new WorkerStopError('bad job')], bare and with [boom] as its cause;
    a [TimeoutError] whose cause is the bare one. *)
Definition stop : value := VObj CWorkerStopError {[ "message" := VStr "bad job" ]}.

Definition stop_with_cause : value :=
  VObj CWorkerStopError (<[ "cause" := boom ]> {[ "message" := VStr "bad job" ]}).

Definition timeout_with_stop_cause : value :=
  VObj CTimeoutError (<[ "cause" := stop ]> {[ "message" := VStr "operation timed out" ]}).

Definition stop_reported : value :=
  VObj CWorkerStopError
    (<[ "data" := VObj CObject (<[ "job" := payload ]>
                                  {[ "queue" := VStr "api.github.push" ]}) ]>
       {[ "message" := VStr "bad job" ]}).

(** The same worker with a timeout of 250 ms. *)
Definition worker250 : worker :=
  {| attempt := 0; job := payload; msTimeout := 250; queue := "api.github.push";
     retryDelay := 3; tid := VStr "job-7" |}.

(** A task that does the same at every call, with a callback that
    returns. *)
Definition steady (r : task_result) : behaviour :=
  {| env := ∅; task := fun _ => r; done := fun _ => Normal VUndefined |}.

(** A task that returns, with a callback that throws [boom] at its first
    call and returns afterwards. *)
Definition done_throws_once : behaviour :=
  {| env := ∅; task := fun _ => Returns (VStr "ok");
     done := fun n => if (n =? 0)%nat then Throw boom else Normal VUndefined |}.

End Samples.

(** Further sample inputs. *)
Module Scenarios.

(** A task that returns, with a callback that returns, under
    [WORKER_MONITOR_DISABLED=false]. *)
Definition unmonitored : behaviour :=
  {| env := {[ "WORKER_MONITOR_DISABLED" := "false" ]};
     task := fun _ => Returns (VStr "ok");
     done := fun _ => Normal VUndefined |}.

End Scenarios.

(** * Properties *)

(** ** [parseInt] on sample inputs *)

Example parseInt_decimal : parseInt (VStr "250") (Some 10) = VNum 250.
Proof. reflexivity. Qed.

Example parseInt_signed : parseInt (VStr "  -5") (Some 10) = VNum (-5).
Proof. reflexivity. Qed.

Example parseInt_prefix : parseInt (VStr "12abc") (Some 10) = VNum 12.
Proof. reflexivity. Qed.

Example parseInt_no_digit : parseInt (VStr "abc") (Some 10) = VNaN.
Proof. reflexivity. Qed.

Example parseInt_empty : parseInt (VStr "") (Some 10) = VNaN.
Proof. reflexivity. Qed.

Example parseInt_hex_radix_10 : parseInt (VStr "0x10") (Some 10) = VNum 0.
Proof. reflexivity. Qed.

Example parseInt_hex_no_radix : parseInt (VStr "0x10") None = VNum 16.
Proof. reflexivity. Qed.

Example parseInt_undefined : parseInt VUndefined None = VNaN.
Proof. reflexivity. Qed.

(** ** Queue names and monitoring tags *)

Lemma split_nonempty sep s : Str.split sep s <> [].
Proof.
  destruct s as [|c s]; simpl; [done|].
  destruct (Ascii.eqb c sep); [done|].
  destruct (Str.split sep s); done.
Qed.

Lemma join_cons sep p rest :
  rest <> [] -> Str.join sep (p :: rest) = p +:+ sep +:+ Str.join sep rest.
Proof. destruct rest; [done|reflexivity]. Qed.

(** Joining the pieces of a split gives the string back. *)
Lemma join_split (c : ascii) (s : string) :
  Str.join (String c "") (Str.split c s) = s.
Proof.
  induction s as [|a s IH]; [reflexivity|].
  cbn [Str.split].
  destruct (Ascii.eqb_spec a c) as [->|Hne].
  - rewrite join_cons by apply split_nonempty. rewrite IH. reflexivity.
  - pose proof (split_nonempty c s) as Hs.
    destruct (Str.split c s) as [|h t]; [done|].
    destruct t as [|h' t].
    + simpl in *. by rewrite IH.
    + rewrite join_cons by done. rewrite join_cons in IH by done.
      rewrite <- IH. reflexivity.
Qed.

Lemma token_key_inj i j : token_key i = token_key j -> i = j.
Proof.
  unfold token_key. intros H. simpl in H.
  injection H as H. exact (pretty_nat_inj _ _ H).
Qed.

Lemma token_key_not_queue i : token_key i <> "queue".
Proof. unfold token_key. simpl. discriminate. Qed.

(** The accumulator after the tokens [rest], reached with the tokens [pre]
    already consumed: keys other than the new ones are untouched. *)
Lemma reduce_from_frame rest : forall (pre : list string) acc last k,
  (forall j, (j < length rest)%nat -> k <> token_key (length pre + j)) ->
  (reduce_from rest (length pre) (acc, last)).1 !! k = acc !! k.
Proof.
  induction rest as [|c rest IH]; intros pre acc last k Hk; [reflexivity|].
  cbn [reduce_from tag_step].
  replace (S (length pre)) with (length (pre ++ [c])) by (rewrite length_app; simpl; lia).
  rewrite IH.
  - rewrite lookup_insert_ne; [done|].
    intros E. apply (Hk 0%nat); [simpl; lia|].
    rewrite Nat.add_0_r. symmetry. exact E.
  - intros j Hj. rewrite length_app. simpl.
    replace (length pre + 1 + j)%nat with (length pre + S j)%nat by lia.
    apply Hk. simpl. lia.
Qed.

Lemma reduce_from_lookup rest : forall (pre : list string) acc last j,
  (pre <> [] -> last = Str.join "." (rev pre)) ->
  (j < length rest)%nat ->
  (reduce_from rest (length pre) (acc, last)).1 !! token_key (length pre + j)
  = Some (Str.join "." (rev (pre ++ take (S j) rest))).
Proof.
  induction rest as [|c rest IH]; intros pre acc last j Hlast Hj; [simpl in Hj; lia|].
  cbn [reduce_from tag_step].
  set (newToken := if (length pre =? 0)%nat then c else c +:+ "." +:+ last).
  assert (HnewToken : newToken = Str.join "." (rev (pre ++ [c]))).
  { subst newToken. rewrite rev_app_distr. simpl rev at 1. simpl app.
    destruct pre as [|p pre]; [reflexivity|].
    simpl length. simpl Nat.eqb.
    rewrite join_cons.
    - by rewrite Hlast.
    - simpl. intros E. by apply app_eq_nil in E as [_ ?]. }
  replace (S (length pre)) with (length (pre ++ [c])) by (rewrite length_app; simpl; lia).
  destruct j as [|j].
  - rewrite Nat.add_0_r. rewrite reduce_from_frame.
    + fold (token_key (length pre)). rewrite lookup_insert_eq.
      simpl take. by rewrite HnewToken.
    + intros j' _ E. apply token_key_inj in E. rewrite length_app in E. simpl in E. lia.
  - replace (length pre + S j)%nat with (length (pre ++ [c]) + j)%nat
      by (rewrite length_app; simpl; lia).
    rewrite (IH (pre ++ [c]) _ newToken j).
    + simpl take. by rewrite <- app_assoc.
    + intros _. exact HnewToken.
    + simpl in Hj. lia.
Qed.

Lemma eventTags_token (q : string) (i : nat) :
  (i < length (Str.split "." q))%nat ->
  _eventTags q !! token_key i
  = Some (Str.join "." (drop (length (Str.split "." q) - S i) (Str.split "." q))).
Proof.
  intros Hi. unfold _eventTags.
  rewrite lookup_insert_ne by (intros E; by apply (token_key_not_queue i)).
  pose proof (reduce_from_lookup (rev (Str.split "." q)) [] ∅ "" i) as H.
  simpl in H. rewrite H; [|done|by rewrite length_rev].
  rewrite firstn_rev, rev_involutive. reflexivity.
Qed.

Lemma reduce_from_keys rest : forall (pre : list string) acc last k,
  is_Some ((reduce_from rest (length pre) (acc, last)).1 !! k) ->
  is_Some (acc !! k) \/
  exists j, (j < length rest)%nat /\ k = token_key (length pre + j).
Proof.
  induction rest as [|c rest IH]; intros pre acc last k Hk; [by left|].
  cbn [reduce_from tag_step] in Hk.
  replace (S (length pre)) with (length (pre ++ [c])) in Hk
    by (rewrite length_app; simpl; lia).
  apply IH in Hk as [Hk|(j & Hj & ->)].
  - destruct (decide (token_key (length pre) = k)) as [<-|Hne].
    + right. exists 0%nat. split; [simpl; lia|]. by rewrite Nat.add_0_r.
    + left. by rewrite lookup_insert_ne in Hk.
  - right. exists (S j). split; [simpl; lia|].
    rewrite length_app. simpl. f_equal. lia.
Qed.

Lemma eventTags_keys (q k : string) :
  is_Some (_eventTags q !! k) ->
  k = "queue" \/ exists i, (i < length (Str.split "." q))%nat /\ k = token_key i.
Proof.
  intros Hk. unfold _eventTags in Hk.
  destruct (decide (k = "queue")) as [|Hne]; [by left|right].
  rewrite lookup_insert_ne in Hk by done.
  apply (reduce_from_keys _ []) in Hk as [Hk|(j & Hj & ->)].
  - rewrite lookup_empty in Hk. by destruct Hk.
  - exists j. by rewrite length_rev in Hj.
Qed.

(** C8. For every queue name, split at its dots into [n] pieces, the tags
    are: under [token i], for each [i < n], the last [i + 1] pieces joined
    by dots (the suffixes of the name, growing from the right); under
    [queue], the full name; and nothing else.  The longest token is the
    name itself.  For ["a.b.c"] the tags are token0 ["c"], token1 ["b.c"],
    token2 ["a.b.c"] and queue ["a.b.c"]. *)
Theorem eventTags_suffix_hierarchy (q : string) :
  let parts := Str.split "." q in
  let n := length parts in
  (forall i, (i < n)%nat ->
     _eventTags q !! token_key i = Some (Str.join "." (drop (n - S i) parts)))
  /\ _eventTags q !! "queue" = Some q
  /\ (forall k, is_Some (_eventTags q !! k) ->
        k = "queue" \/ exists i, (i < n)%nat /\ k = token_key i)
  /\ _eventTags q !! token_key (n - 1) = Some q
  /\ _eventTags "a.b.c"
     = <[ "token0" := "c" ]> (<[ "token1" := "b.c" ]> (<[ "token2" := "a.b.c" ]>
         {[ "queue" := "a.b.c" ]})).
Proof.
  intros parts n. split; [|split; [|split; [|split]]].
  - intros i Hi. by apply eventTags_token.
  - unfold _eventTags. apply lookup_insert_eq.
  - apply eventTags_keys.
  - assert (Hn : (0 < n)%nat).
    { subst n parts. pose proof (split_nonempty "." q).
      destruct (Str.split "." q); [done|simpl; lia]. }
    rewrite eventTags_token by (fold parts; fold n; lia).
    fold parts. fold n. replace (n - S (n - 1))%nat with 0%nat by lia.
    simpl drop. subst parts. f_equal. apply (join_split "." q).
  - vm_compute. reflexivity.
Qed.

(** The queue name of the comment above [_eventTags] in the source has
    seven pieces, the dots of the address included: [token3] is not the
    full name, which is [token6]. *)
Example eventTags_address_queue :
  _eventTags "10.0.0.20.api.github.push" !! "token3" = Some "20.api.github.push"
  /\ _eventTags "10.0.0.20.api.github.push" !! "token6"
     = Some "10.0.0.20.api.github.push".
Proof. split; vm_compute; reflexivity. Qed.

Lemma eventTags_suffix_hierarchy_witness :
  _eventTags "api.github.push" !! token_key 1 = Some "github.push".
Proof.
  apply (proj1 (eventTags_suffix_hierarchy "api.github.push") 1%nat).
  vm_compute. lia.
Defined.

(** ** The constructor *)

Lemma pick_fold_lookup (obj : gmap string value) keys : forall out k,
  foldl (copy obj) out keys !! k
  = if decide (k ∈ keys) then
      match obj !! k with Some v => Some v | None => out !! k end
    else out !! k.
Proof.
  induction keys as [|key keys IH]; intros out k; simpl.
  - destruct (decide (k ∈ [])) as [Hin|]; [|done]. by apply elem_of_nil in Hin.
  - rewrite IH. unfold copy.
    destruct (decide (k ∈ keys)) as [Hin|Hnin];
      destruct (decide (k ∈ key :: keys)) as [Hin'|Hnin'].
    + destruct (obj !! k) eqn:Ek; [done|].
      destruct (obj !! key) eqn:Ekey; [|done].
      rewrite lookup_insert_ne; [done|]. intros ->. congruence.
    + exfalso. apply Hnin'. by apply list_elem_of_further.
    + apply elem_of_cons in Hin' as [->|]; [|done].
      destruct (obj !! key); [|done]. by rewrite lookup_insert_eq.
    + destruct (obj !! key); [|done]. rewrite lookup_insert_ne; [done|].
      intros ->. apply Hnin'. apply list_elem_of_here.
Qed.

Lemma pick_lookup (obj : gmap string value) keys k :
  pick obj keys !! k = if decide (k ∈ keys) then obj !! k else None.
Proof.
  unfold pick. rewrite pick_fold_lookup, lookup_empty.
  destruct (decide _); [|done]. by destruct (obj !! k).
Qed.

Lemma defaults_lookup_other source : forall (target : gmap string value) k,
  k ∉ source.*1 -> defaults target source !! k = target !! k.
Proof.
  induction source as [|[k' d] source IH]; intros target k Hk; [done|].
  simpl in Hk. apply not_elem_of_cons in Hk as [Hne Hk].
  change (defaults target ((k', d) :: source))
    with (defaults (default_key target (k', d)) source).
  rewrite IH by done. unfold default_key. simpl.
  destruct (exists_ _); [done|]. by rewrite lookup_insert_ne.
Qed.

Lemma defaults_lookup source : forall (target : gmap string value) k d,
  NoDup source.*1 -> (k, d) ∈ source ->
  defaults target source !! k
  = if exists_ (prop target k) then target !! k else Some d.
Proof.
  induction source as [|[k' d'] source IH]; intros target k d Hnd Hin.
  - by apply elem_of_nil in Hin.
  - simpl in Hnd. apply NoDup_cons in Hnd as [Hk' Hnd].
    change (defaults target ((k', d') :: source))
      with (defaults (default_key target (k', d')) source).
    apply elem_of_cons in Hin as [[= <- <-]|Hin].
    + rewrite defaults_lookup_other by done.
      unfold default_key. simpl.
      destruct (exists_ _); [done|]. by rewrite lookup_insert_eq.
    + assert (k <> k').
      { intros ->. apply Hk'. apply list_elem_of_fmap. by exists (k', d). }
      rewrite (IH _ k d) by done.
      unfold default_key. simpl.
      destruct (exists_ (prop target k')); [done|].
      unfold prop. by rewrite lookup_insert_ne.
Qed.

Lemma option_defaults_NoDup env : NoDup (option_defaults env).*1.
Proof. simpl. apply (bool_decide_unpack _). by vm_compute. Qed.

Lemma check_required_ok fields opts :
  check_required fields opts = Normal tt <->
  Forall (fun f => exists_ (prop opts f) = true) fields.
Proof.
  induction fields as [|f fields IH]; simpl.
  - split; [constructor|done].
  - destruct (exists_ _) eqn:E.
    + rewrite IH. split; [by constructor|by inversion 1].
    + split; [done|]. inversion 1; congruence.
Qed.

Lemma check_required_first pre f post opts :
  Forall (fun g => exists_ (prop opts g) = true) pre ->
  exists_ (prop opts f) = false ->
  check_required (pre ++ f :: post) opts
  = Throw (new_Error (f +:+ " is required for a Worker")).
Proof.
  induction 1 as [|g pre Hg _ IH]; intros Hf; simpl.
  - by rewrite Hf.
  - rewrite Hg. by apply IH.
Qed.

Lemma get_exists v k : exists_ v = true -> exists x, get v k = Normal x.
Proof. destruct v; simpl; try discriminate; eauto. Qed.

Lemma parseInt_string_cases s r :
  parseInt_string s r = VNaN \/ exists n, parseInt_string s r = VNum n.
Proof.
  unfold parseInt_string. destruct (strip_sign _) as [sign s1].
  destruct (_ && _); [by left|].
  destruct (if (default 0 r =? 0) || (default 0 r =? 16) then _ else _) as [r' s2].
  destruct (parse_digits _ _ _); eauto.
Qed.

Lemma parseInt_cases v r :
  parseInt v r = VNaN \/ exists n, parseInt v r = VNum n.
Proof.
  destruct v; simpl; eauto using parseInt_string_cases.
  destruct (_ || _); eauto using parseInt_string_cases.
Qed.

(** The options after [pick] and [defaults]. *)
Section ManagedOptions.
Variables (env : gmap string string) (opts : gmap string value).

Local Abbreviation managed :=
  (defaults (pick opts managed_fields) (option_defaults env)).

Lemma managed_lookup_required k :
  k ∈ required_fields -> managed !! k = opts !! k.
Proof.
  intros Hk. rewrite defaults_lookup_other.
  - rewrite pick_lookup. rewrite decide_True; [done|].
    unfold managed_fields. apply elem_of_app. by left.
  - simpl. intros Hin. unfold required_fields in Hk.
    repeat (apply elem_of_cons in Hk as [->|Hk];
            [by apply (bool_decide_pack _) in Hin|]).
    by apply elem_of_nil in Hk.
Qed.

Lemma managed_lookup_default k d :
  k ∈ managed_fields -> (k, d) ∈ option_defaults env ->
  prop managed k = if exists_ (prop opts k) then prop opts k else d.
Proof.
  intros Hk Hd. unfold prop at 1.
  rewrite (defaults_lookup _ _ k d) by (done || apply option_defaults_NoDup).
  unfold prop. rewrite pick_lookup, decide_True by done.
  by destruct (exists_ _).
Qed.

Lemma managed_lookup_internal k d :
  k ∉ managed_fields -> (k, d) ∈ option_defaults env -> managed !! k = Some d.
Proof.
  intros Hk Hd.
  rewrite (defaults_lookup _ _ k d) by (done || apply option_defaults_NoDup).
  unfold prop. by rewrite pick_lookup, decide_False by done.
Qed.

Lemma managed_lookup_none k :
  k ∉ managed_fields -> k ∉ (option_defaults env).*1 -> managed !! k = None.
Proof.
  intros Hk Hd. rewrite defaults_lookup_other by done.
  by rewrite pick_lookup, decide_False by done.
Qed.

Lemma managed_timeout : prop managed "msTimeout" = timeout_option env opts.
Proof.
  rewrite (managed_lookup_default _ (or_else (getenv env "WORKER_TIMEOUT") (VNum 0))).
  - reflexivity.
  - by apply (bool_decide_unpack _).
  - unfold option_defaults. set_solver.
Qed.

Lemma managed_runNow : prop managed "runNow" = runNow_option opts.
Proof.
  rewrite (managed_lookup_default _ (VBool true)).
  - reflexivity.
  - by apply (bool_decide_unpack _).
  - unfold option_defaults. set_solver.
Qed.

End ManagedOptions.

(** With every required option given, the constructor comes down to the
    checks on the parsed timeout. *)
Lemma constructor_unfold child uuid env opts :
  all_required opts ->
  exists jt this0,
    get (prop opts "job") "tid" = Normal jt /\
    this0 !! "tid" = Some (or_else jt (VStr uuid)) /\
    (forall k, k <> "log" -> k <> "tid" ->
       this0 !! k = defaults (pick opts managed_fields) (option_defaults env) !! k) /\
    constructor child uuid env opts =
      let ms := parseInt (timeout_option env opts) (Some 10) in
      if negb (isNumber ms) then
        Throw (new_Error "Provided `msTimeout` is not an integer")
      else if less_than ms 0 then
        Throw (new_Error "Provided `msTimeout` is negative")
      else Normal (<[ "msTimeout" := ms ]> this0, truthy (runNow_option opts)).
Proof.
  intros Hreq. unfold constructor.
  rewrite (proj2 (check_required_ok _ _) Hreq). cbn [cbind].
  set (managed := defaults (pick opts managed_fields) (option_defaults env)).
  assert (Hjob : prop managed "job" = prop opts "job").
  { unfold prop. subst managed. rewrite managed_lookup_required; [done|].
    by apply (bool_decide_unpack _). }
  assert (Hlog : prop managed "log" = prop opts "log").
  { unfold prop. subst managed. rewrite managed_lookup_required; [done|].
    by apply (bool_decide_unpack _). }
  assert (Hex : exists_ (prop opts "job") = true).
  { unfold all_required in Hreq. rewrite Forall_forall in Hreq. apply Hreq.
    by apply (bool_decide_unpack _). }
  destruct (get_exists _ "tid" Hex) as [jt Hjt].
  rewrite Hjob, Hjt, Hlog. cbn [cbind].
  set (tid := or_else jt (VStr uuid)).
  set (this0 := <[ "log" := _ ]> managed ∪ {[ "tid" := tid ]}).
  assert (Hother : forall k, k <> "log" -> k <> "tid" -> this0 !! k = managed !! k).
  { intros k Hl Ht. subst this0.
    rewrite lookup_union_l by (by rewrite lookup_singleton_ne).
    by rewrite lookup_insert_ne. }
  exists jt, this0. split; [done|]. split; [|split; [done|]].
  - subst this0. rewrite lookup_union_r.
    + by rewrite lookup_singleton_eq.
    + rewrite lookup_insert_ne by done. subst managed.
      apply managed_lookup_none; by apply (bool_decide_unpack _).
  - assert (Hms : prop this0 "msTimeout" = timeout_option env opts).
    { unfold prop. rewrite Hother by done. apply managed_timeout. }
    assert (Hrun : prop (<[ "msTimeout" := parseInt (prop this0 "msTimeout") (Some 10) ]> this0)
                     "runNow" = runNow_option opts).
    { unfold prop. rewrite lookup_insert_ne by done. rewrite Hother by done.
      apply managed_runNow. }
    rewrite Hrun, Hms. reflexivity.
Qed.

Lemma check_required_missing fields opts :
  Exists (fun f => exists_ (prop opts f) = false) fields ->
  exists g, g ∈ fields /\ exists_ (prop opts g) = false /\
    check_required fields opts = Throw (new_Error (g +:+ " is required for a Worker")).
Proof.
  induction fields as [|f fields IH]; intros Hex; [by inversion Hex|].
  simpl. destruct (exists_ (prop opts f)) eqn:E.
  - inversion Hex as [? ? Hf|? ? Hrest]; subst; [congruence|].
    destruct (IH Hrest) as (g & Hg & Hm & Heq).
    exists g. split; [by apply list_elem_of_further|done].
  - exists f. split; [apply list_elem_of_here|done].
Qed.

Lemma check_required_ext fields (opts opts' : gmap string value) :
  (forall k, k ∈ fields -> opts' !! k = opts !! k) ->
  check_required fields opts' = check_required fields opts.
Proof.
  induction fields as [|f fields IH]; intros Hext; [done|].
  simpl. unfold prop. rewrite (Hext f) by apply list_elem_of_here.
  rewrite IH; [done|]. intros k Hk. apply Hext. by apply list_elem_of_further.
Qed.

Lemma constructor_Normal_required child uuid env opts r :
  constructor child uuid env opts = Normal r -> all_required opts.
Proof.
  unfold constructor. intros H.
  destruct (check_required required_fields opts) as [[]|e] eqn:E; [|done].
  by apply check_required_ok.
Qed.

(** C5. The constructor throws ["<f> is required for a Worker"] for a
    required option [f] that is missing ([undefined] or [null]), whichever
    it is: the error names the first missing one.  With all of them given
    it throws when the timeout (the [msTimeout] option, or else
    [WORKER_TIMEOUT], or else 0) does not parse to an integer, or parses to
    a negative one.  Otherwise it succeeds: [msTimeout] holds the parsed
    timeout, [retryDelay] holds [WORKER_MIN_RETRY_DELAY] or else 1, and
    [run] is called exactly when [runNow] (by default [true]) is truthy, so
    not when it is [false]. *)
Theorem constructor_validates_and_defaults child uuid env opts :
  (forall pre f post,
     required_fields = (pre ++ f :: post) ->
     Forall (fun g => exists_ (prop opts g) = true) pre ->
     exists_ (prop opts f) = false ->
     constructor child uuid env opts
     = Throw (new_Error (f +:+ " is required for a Worker")))
  /\ (forall f, f ∈ required_fields -> exists_ (prop opts f) = false ->
      exists g, g ∈ required_fields /\ exists_ (prop opts g) = false /\
        constructor child uuid env opts
        = Throw (new_Error (g +:+ " is required for a Worker")))
  /\ (all_required opts ->
      let ms := parseInt (timeout_option env opts) (Some 10) in
      (ms = VNaN \/ exists n, ms = VNum n)
      /\ (ms = VNaN ->
          constructor child uuid env opts
          = Throw (new_Error "Provided `msTimeout` is not an integer"))
      /\ (forall n, ms = VNum n -> n < 0 ->
          constructor child uuid env opts
          = Throw (new_Error "Provided `msTimeout` is negative"))
      /\ (forall n, ms = VNum n -> 0 <= n ->
          exists this,
            constructor child uuid env opts
            = Normal (this, truthy (runNow_option opts))
            /\ this !! "msTimeout" = Some (VNum n)
            /\ this !! "retryDelay"
               = Some (or_else (getenv env "WORKER_MIN_RETRY_DELAY") (VNum 1))))
  /\ (exists_ (prop opts "msTimeout") = false ->
      timeout_option env opts = or_else (getenv env "WORKER_TIMEOUT") (VNum 0))
  /\ (prop opts "runNow" = VBool false -> truthy (runNow_option opts) = false)
  /\ (exists_ (prop opts "runNow") = false \/ prop opts "runNow" = VBool true ->
      truthy (runNow_option opts) = true).
Proof.
  split; [|split; [|split; [|split; [|split]]]].
  - intros pre f post Hfields Hpre Hf. unfold constructor.
    rewrite Hfields, (check_required_first pre f post) by done. reflexivity.
  - intros f Hin Hf.
    destruct (check_required_missing required_fields opts) as (g & Hg & Hm & Heq).
    { apply Exists_exists. by exists f. }
    exists g. split; [done|]. split; [done|].
    unfold constructor. by rewrite Heq.
  - intros Hreq ms.
    destruct (constructor_unfold child uuid env opts Hreq)
      as (jt & this0 & _ & _ & Hother & Heq).
    fold ms in Heq. cbv zeta in Heq.
    split; [apply parseInt_cases|]. split; [|split].
    + intros Hms. rewrite Heq, Hms. reflexivity.
    + intros n Hms Hn. rewrite Heq, Hms. cbn.
      by rewrite (proj2 (Z.ltb_lt n 0) Hn).
    + intros n Hms Hn. rewrite Heq, Hms. cbn.
      rewrite (proj2 (Z.ltb_ge n 0) Hn).
      eexists. split; [reflexivity|]. split.
      * apply lookup_insert_eq.
      * rewrite lookup_insert_ne by done. rewrite Hother by done.
        apply managed_lookup_internal.
        -- by apply (bool_decide_unpack _).
        -- unfold option_defaults. set_solver.
  - intros H. unfold timeout_option. by rewrite H.
  - intros H. unfold runNow_option. by rewrite H.
  - intros [H|H]; unfold runNow_option; rewrite H; reflexivity.
Qed.

Lemma constructor_validates_and_defaults_witness :
  exists this,
    constructor Samples.child "generated" ∅ Samples.opts_ok = Normal (this, true)
    /\ this !! "msTimeout" = Some (VNum 250)
    /\ this !! "retryDelay" = Some (VNum 1).
Proof.
  destruct (constructor_validates_and_defaults Samples.child "generated" ∅ Samples.opts_ok)
    as (_ & _ & H & _).
  assert (Hreq : all_required Samples.opts_ok).
  { unfold all_required, required_fields. repeat constructor. }
  destruct (H Hreq) as (_ & _ & _ & Hok).
  apply (Hok 250); [vm_compute; reflexivity|lia].
Defined.

(** C9. Whatever options the caller passes, a constructed worker has
    [attempt] 0, [retryDelay] from [WORKER_MIN_RETRY_DELAY] or else 1, and
    [tid] from [job.tid] or else the generated identifier; it has no
    property beyond the managed options and these three; and the outcome
    of the constructor depends on the managed options only. *)
Theorem constructor_whitelists_options child uuid env opts this started :
  constructor child uuid env opts = Normal (this, started) ->
  this !! "attempt" = Some (VNum 0)
  /\ this !! "retryDelay" = Some (or_else (getenv env "WORKER_MIN_RETRY_DELAY") (VNum 1))
  /\ (exists jt, get (prop opts "job") "tid" = Normal jt
              /\ this !! "tid" = Some (or_else jt (VStr uuid)))
  /\ (forall k, k ∉ managed_fields -> k ∉ ["attempt"; "retryDelay"; "tid"] ->
        this !! k = None)
  /\ (forall opts' : gmap string value,
        (forall k, k ∈ managed_fields -> opts' !! k = opts !! k) ->
        constructor child uuid env opts' = constructor child uuid env opts).
Proof.
  intros Hnew.
  pose proof (constructor_Normal_required _ _ _ _ _ Hnew) as Hreq.
  destruct (constructor_unfold child uuid env opts Hreq)
    as (jt & this0 & Hjt & Htid & Hother & Heq).
  rewrite Heq in Hnew. cbv zeta in Hnew.
  destruct (negb _); [done|]. destruct (less_than _ _); [done|].
  injection Hnew as <- _.
  split; [|split; [|split; [|split]]].
  - rewrite lookup_insert_ne by done. rewrite Hother by done.
    apply managed_lookup_internal.
    + by apply (bool_decide_unpack _).
    + unfold option_defaults. set_solver.
  - rewrite lookup_insert_ne by done. rewrite Hother by done.
    apply managed_lookup_internal.
    + by apply (bool_decide_unpack _).
    + unfold option_defaults. set_solver.
  - exists jt. split; [done|]. by rewrite lookup_insert_ne.
  - intros k Hk Hint.
    assert (k <> "msTimeout") by (intros ->; apply Hk; by apply (bool_decide_unpack _)).
    assert (k <> "log") by (intros ->; apply Hk; by apply (bool_decide_unpack _)).
    assert (k <> "tid") by (intros ->; apply Hint; by apply (bool_decide_unpack _)).
    rewrite lookup_insert_ne by done. rewrite Hother by done.
    apply managed_lookup_none; [done|].
    simpl. intros Hin.
    repeat (apply elem_of_cons in Hin as [->|Hin];
            [first [by apply Hk, (bool_decide_unpack _)
                   |by apply Hint, (bool_decide_unpack _)]|]).
    by apply elem_of_nil in Hin.
  - intros opts' Hext. unfold constructor.
    rewrite (check_required_ext _ opts opts').
    + replace (pick opts' managed_fields) with (pick opts managed_fields); [done|].
      apply map_eq. intros k. rewrite !pick_lookup.
      destruct (decide _); [|done]. symmetry. by apply Hext.
    + intros k Hk. apply Hext. unfold managed_fields. apply elem_of_app. by left.
Qed.

Lemma constructor_whitelists_options_witness :
  exists this started,
    constructor Samples.child "generated" ∅ Samples.opts_forged = Normal (this, started)
    /\ this !! "attempt" = Some (VNum 0)
    /\ this !! "retryDelay" = Some (VNum 1)
    /\ this !! "tid" = Some (VStr "job-7").
Proof.
  destruct (constructor Samples.child "generated" ∅ Samples.opts_forged)
    as [[this started]|e] eqn:E; [|vm_compute in E; discriminate].
  exists this, started. split; [reflexivity|].
  destruct (constructor_whitelists_options _ _ _ _ _ _ E) as (Ha & Hd & (jt & Hjt & Ht) & _).
  split; [exact Ha|]. split; [exact Hd|].
  rewrite Ht. vm_compute in Hjt. injection Hjt as <-. reflexivity.
Defined.

(** ** The run loop *)

Lemma observe_app tr1 tr2 : observe (tr1 ++ tr2) = observe tr1 ++ observe tr2.
Proof. apply List.filter_app. Qed.

Lemma tasks_observe tr : tasks (observe tr) = tasks tr.
Proof.
  unfold tasks, observe. induction tr as [|[] tr IH]; simpl in *; auto; by f_equal.
Qed.

Lemma dones_observe tr : dones (observe tr) = dones tr.
Proof.
  unfold dones, observe. induction tr as [|[] tr IH]; simpl in *; auto; by f_equal.
Qed.

Lemma reports_observe tr : reports (observe tr) = reports tr.
Proof.
  unfold reports, observe. induction tr as [|[] tr IH]; simpl in *; auto; by f_equal.
Qed.

Lemma delays_observe tr : delays (observe tr) = delays tr.
Proof.
  unfold delays, observe. induction tr as [|[] tr IH]; simpl in *; auto; by f_equal.
Qed.

Lemma tasks_app tr1 tr2 : tasks (tr1 ++ tr2) = (tasks tr1 + tasks tr2)%nat.
Proof. unfold tasks. by rewrite List.filter_app, length_app. Qed.

Lemma dones_app tr1 tr2 : dones (tr1 ++ tr2) = (dones tr1 + dones tr2)%nat.
Proof. unfold dones. by rewrite List.filter_app, length_app. Qed.

Lemma reports_app tr1 tr2 : reports (tr1 ++ tr2) = reports tr1 ++ reports tr2.
Proof. apply omap_app. Qed.

Lemma delays_app tr1 tr2 : delays (tr1 ++ tr2) = delays tr1 ++ delays tr2.
Proof. apply omap_app. Qed.

(** [normalize] reads the queue name and the job of the instance only, and
    [settle_attempt] its timeout only. *)
Lemma normalize_attempt t a d reason :
  normalize {| attempt := a; job := job t; msTimeout := msTimeout t; queue := queue t;
               retryDelay := d; tid := tid t |} reason
  = normalize t reason.
Proof. reflexivity. Qed.

Lemma settle_attempt_attempt t a d r :
  settle_attempt {| attempt := a; job := job t; msTimeout := msTimeout t;
                    queue := queue t; retryDelay := d; tid := tid t |} r
  = settle_attempt t r.
Proof. reflexivity. Qed.

Lemma normalize_retried max t reason :
  normalize (retried max t) reason = normalize t reason.
Proof. reflexivity. Qed.

Lemma settle_attempt_retried max t r :
  settle_attempt (retried max t) r = settle_attempt t r.
Proof. reflexivity. Qed.

(** [normalize] always throws: the error it was given, filled in, or a
    [TypeError]. *)
Lemma normalize_throws t reason : exists err, normalize t reason = Throw err.
Proof.
  unfold normalize, unwrap, set_data.
  repeat match goal with
         | |- exists _, Throw _ = Throw _ => eexists; reflexivity
         | |- context [cbind ?m _] =>
             let c := fresh "c" in destruct m as [c|c]; cbn [cbind]
         end.
Qed.

Ltac run_unfold :=
  cbv beta iota zeta delta
    [bind ret read write emit then_ catch_ finally_ any start_attempt
     post_increment_attempt set_retryDelay call_task call_done _reportError
     on_success on_timeout on_error on_stop on_failure stop_timer settle
     _incMonitor _createTimer
     this task_calls done_calls trace attempt job msTimeout queue retryDelay tid
     negb retried attempted fresh].

Ltac destruct_world w :=
  let a := fresh "a" in let j := fresh "j" in let ms := fresh "ms" in
  let q := fresh "q" in let d := fresh "d" in let ti := fresh "ti" in
  let tc := fresh "tc" in let dc := fresh "dc" in let tr := fresh "tr" in
  destruct w as [[a j ms q d ti] tc dc tr];
  cbn [this task_calls done_calls trace attempt job msTimeout queue retryDelay tid] in *.

(** Stopping the timer shows nothing. *)
Lemma finally_stop_timer timer p w :
  exists evs,
    observe evs = []
    /\ finally_ (stop_timer timer) p w
       = (p, {| this := this w; task_calls := task_calls w;
                done_calls := done_calls w; trace := trace w ++ evs |}).
Proof.
  destruct_world w.
  destruct timer, p; run_unfold;
    first [ by exists [EvTimerStop] | exists []; by rewrite app_nil_r ].
Qed.

(** One retried attempt. *)
Lemma run_retry b fuel w reason err :
  settle_attempt (this w) (task b (task_calls w)) = Rejected reason ->
  normalize (this w) reason = Throw err ->
  instanceof err CWorkerStopError = false ->
  exists evs,
    observe evs = [EvTask (job (this w)); EvReport err; EvDelay (retryDelay (this w))]
    /\ run b (S fuel) w
       = let '(p, w2) := run b fuel {| this := retried (max_retry_delay b) (this w);
                                      task_calls := S (task_calls w);
                                      done_calls := done_calls w;
                                      trace := trace w ++ evs |} in
         finally_ (stop_timer (negb (monitor_disabled b))) p w2.
Proof.
  destruct_world w. intros Hrej Hnorm Hstop.
  cbn [run]. run_unfold.
  destruct (monitor_disabled b) eqn:Hm; rewrite Hrej;
    destruct (instanceof reason CTimeoutError) eqn:Ht;
    rewrite ?Hm;
    rewrite (normalize_attempt {| attempt := a; job := j; msTimeout := ms; queue := q;
                                  retryDelay := d; tid := ti |}), Hnorm, Hstop;
    rewrite ?Hm, <- ?app_assoc;
    (eexists; split; [|reflexivity]); reflexivity.
Qed.

(** A successful attempt, when the callback returns. *)
Lemma run_success b fuel w v r :
  settle_attempt (this w) (task b (task_calls w)) = Fulfilled v ->
  done b (done_calls w) = Normal r ->
  exists evs,
    observe evs = [EvTask (job (this w)); EvDone]
    /\ run b (S fuel) w
       = (Fulfilled r, {| this := attempted (this w); task_calls := S (task_calls w);
                          done_calls := S (done_calls w); trace := trace w ++ evs |}).
Proof.
  destruct_world w. intros Hok Hdone.
  cbn [run]. run_unfold.
  destruct (monitor_disabled b) eqn:Hm; rewrite Hok, ?Hm, Hdone;
    rewrite <- ?app_assoc; (eexists; split; [|reflexivity]); reflexivity.
Qed.

(** An attempt failing with what [normalize] turns into a
    [WorkerStopError], when the callback returns. *)
Lemma run_stop b fuel w reason err r :
  settle_attempt (this w) (task b (task_calls w)) = Rejected reason ->
  normalize (this w) reason = Throw err ->
  instanceof err CWorkerStopError = true ->
  done b (done_calls w) = Normal r ->
  exists evs,
    observe evs = [EvTask (job (this w)); EvReport err; EvDone]
    /\ run b (S fuel) w
       = (Fulfilled r, {| this := attempted (this w); task_calls := S (task_calls w);
                          done_calls := S (done_calls w); trace := trace w ++ evs |}).
Proof.
  destruct_world w. intros Hrej Hnorm Hstop Hdone.
  cbn [run]. run_unfold.
  destruct (monitor_disabled b) eqn:Hm; rewrite Hrej;
    destruct (instanceof reason CTimeoutError) eqn:Ht;
    rewrite ?Hm;
    rewrite (normalize_attempt {| attempt := a; job := j; msTimeout := ms; queue := q;
                                  retryDelay := d; tid := ti |}), Hnorm, Hstop;
    rewrite ?Hm, Hdone, <- ?app_assoc;
    (eexists; split; [|reflexivity]); reflexivity.
Qed.

(** An attempt that never settles. *)
Lemma run_pending b fuel w :
  settle_attempt (this w) (task b (task_calls w)) = Pending ->
  exists evs,
    observe evs = [EvTask (job (this w))]
    /\ run b (S fuel) w
       = (Pending, {| this := attempted (this w); task_calls := S (task_calls w);
                      done_calls := done_calls w; trace := trace w ++ evs |}).
Proof.
  destruct_world w. intros Hpend.
  cbn [run]. run_unfold.
  destruct (monitor_disabled b) eqn:Hm; rewrite Hpend;
    rewrite <- ?app_assoc; (eexists; split; [|reflexivity]); reflexivity.
Qed.

Lemma fails_retryably_retried b max t errs : forall n,
  fails_retryably b (retried max t) n errs <-> fails_retryably b t n errs.
Proof.
  induction errs as [|err errs IH]; intros n; simpl; [done|].
  rewrite IH. reflexivity.
Qed.

Lemma ending_retried b max t n p tail :
  ending b (retried max t) n p tail -> ending b t n p tail.
Proof.
  inversion 1 as [v r Hs|reason err r Hs Hn Hi|Hs|]; subst.
  - exact (ending_success b t n v r Hs).
  - exact (ending_stop b t n reason err r Hs Hn Hi).
  - exact (ending_pending b t n Hs).
  - apply ending_fuel.
Qed.

Lemma iter_retried max t k :
  let t' := Nat.iter k (retried max) t in
  attempt t' = attempt t + Z.of_nat k
  /\ retryDelay t' = Nat.iter k (next_retryDelay max) (retryDelay t)
  /\ job t' = job t /\ queue t' = queue t /\ msTimeout t' = msTimeout t
  /\ tid t' = tid t.
Proof.
  induction k as [|k IH]; simpl.
  - repeat split; lia.
  - destruct IH as (Ha & Hd & Hj & Hq & Hm & Ht).
    rewrite Ha, Hd, Hj, Hq, Hm, Ht. repeat split; lia.
Qed.

Lemma world_eta w :
  {| this := this w; task_calls := task_calls w; done_calls := done_calls w;
     trace := trace w ++ [] |} = w.
Proof. destruct w. simpl. by rewrite app_nil_r. Qed.

(** Retried attempts, one after the other: the run goes on from the
    instance retried that many times, and what the rest of the run does is
    what the whole run does, but for timers stopped at the end. *)
Lemma run_retries b errs : forall w fuel,
  fails_retryably b (this w) (task_calls w) errs ->
  exists evs,
    observe evs
    = retry_events (job (this w)) (max_retry_delay b) (retryDelay (this w)) errs
    /\ forall p w2,
        run b fuel {| this := Nat.iter (length errs) (retried (max_retry_delay b)) (this w);
                      task_calls := task_calls w + length errs;
                      done_calls := done_calls w;
                      trace := trace w ++ evs |} = (p, w2) ->
        exists evs',
          observe evs' = []
          /\ run b (length errs + fuel) w
             = (p, {| this := this w2; task_calls := task_calls w2;
                      done_calls := done_calls w2; trace := trace w2 ++ evs' |}).
Proof.
  induction errs as [|err errs IH]; intros w fuel Hfail.
  - exists []. split; [done|]. intros p w2. simpl.
    rewrite Nat.add_0_r, world_eta. intros ->.
    exists []. split; [done|]. by rewrite world_eta.
  - destruct Hfail as ((reason & Hrej & Hnorm) & Hstop & Hrest).
    destruct (run_retry b (length errs + fuel) w reason err Hrej Hnorm Hstop)
      as (evs0 & Hobs0 & Hrun).
    set (w' := {| this := retried (max_retry_delay b) (this w);
                  task_calls := S (task_calls w); done_calls := done_calls w;
                  trace := trace w ++ evs0 |}) in *.
    destruct (IH w' fuel) as (evs1 & Hobs1 & Hnext).
    { simpl. by apply fails_retryably_retried. }
    exists (evs0 ++ evs1). split.
    { rewrite observe_app, Hobs0, Hobs1. reflexivity. }
    intros p w2 Hgo.
    destruct (Hnext p w2) as (evs' & Hobs' & Hrun').
    { rewrite <- Hgo. f_equal. subst w'.
      cbn [this task_calls done_calls trace length].
      rewrite Nat.iter_succ_r, <- app_assoc. f_equal. lia. }
    change (length (err :: errs) + fuel)%nat with (S (length errs + fuel)).
    rewrite Hrun, Hrun'.
    destruct (finally_stop_timer (negb (monitor_disabled b)) p
                {| this := this w2; task_calls := task_calls w2;
                   done_calls := done_calls w2; trace := trace w2 ++ evs' |})
      as (evs'' & Hobs'' & ->).
    exists (evs' ++ evs''). split.
    { by rewrite observe_app, Hobs', Hobs''. }
    simpl. by rewrite <- app_assoc.
Qed.

Lemma settle_attempt_fuel t r : settle_attempt t r <> OutOfFuel.
Proof.
  unfold settle_attempt. destruct r; try done.
  by destruct (truthy (VNum (msTimeout t))).
Qed.

(** With a callback that returns, a run is a series of retried attempts
    and an [ending]. *)
Lemma run_shape b (Hdone : done_returns b) : forall fuel w,
  exists errs p w' tail evs,
    run b fuel w = (p, w')
    /\ trace w' = trace w ++ evs
    /\ observe evs
       = retry_events (job (this w)) (max_retry_delay b) (retryDelay (this w)) errs
         ++ tail
    /\ fails_retryably b (this w) (task_calls w) errs
    /\ ending b (this w) (task_calls w + length errs) p tail
    /\ (length errs <= fuel)%nat.
Proof.
  induction fuel as [|fuel IH]; intros w.
  - exists [], OutOfFuel, w, [], []. simpl.
    rewrite app_nil_r.
    split; [reflexivity|]. split; [reflexivity|]. split; [reflexivity|].
    split; [exact I|]. split; [apply ending_fuel|lia].
  - destruct (settle_attempt (this w) (task b (task_calls w))) as [v|reason| |] eqn:Hs.
    + destruct (Hdone (done_calls w)) as [r Hr].
      destruct (run_success b fuel w v r Hs Hr) as (evs & Hobs & Hrun).
      eexists [], _, _, _, evs. split; [exact Hrun|]. simpl.
      rewrite Nat.add_0_r.
      split; [reflexivity|]. split; [exact Hobs|]. split; [exact I|]. split; [|lia].
      by eapply ending_success.
    + destruct (normalize_throws (this w) reason) as [err Hnorm].
      destruct (instanceof err CWorkerStopError) eqn:Hstop.
      * destruct (Hdone (done_calls w)) as [r Hr].
        destruct (run_stop b fuel w reason err r Hs Hnorm Hstop Hr) as (evs & Hobs & Hrun).
        eexists [], _, _, _, evs. split; [exact Hrun|]. simpl.
        rewrite Nat.add_0_r.
        split; [reflexivity|]. split; [exact Hobs|]. split; [exact I|]. split; [|lia].
        by eapply ending_stop.
      * destruct (run_retry b fuel w reason err Hs Hnorm Hstop) as (evs0 & Hobs0 & Hrun).
        set (w1 := {| this := retried (max_retry_delay b) (this w);
                      task_calls := S (task_calls w); done_calls := done_calls w;
                      trace := trace w ++ evs0 |}) in *.
        destruct (IH w1) as (errs & p & w2 & tail & evs1 & Hgo & Htr & Hobs1 & Hfail & Hend & Hlen).
        rewrite Hgo in Hrun.
        destruct (finally_stop_timer (negb (monitor_disabled b)) p w2)
          as (evs2 & Hobs2 & Hfin).
        rewrite Hfin in Hrun.
        eexists (err :: errs), p, _, tail, (evs0 ++ evs1 ++ evs2).
        split; [exact Hrun|]. simpl in *.
        split; [rewrite Htr; by rewrite <- !app_assoc|].
        split; [rewrite !observe_app, Hobs0, Hobs1, Hobs2, app_nil_r; reflexivity|].
        split; [|split; [|lia]].
        -- split; [by exists reason|]. split; [done|].
           by apply (fails_retryably_retried b (max_retry_delay b)).
        -- apply (ending_retried b (max_retry_delay b)).
           by replace (task_calls w + S (length errs))%nat
             with (S (task_calls w) + length errs)%nat by lia.
    + destruct (run_pending b fuel w Hs) as (evs & Hobs & Hrun).
      eexists [], _, _, _, evs. split; [exact Hrun|]. simpl.
      rewrite Nat.add_0_r.
      split; [reflexivity|]. split; [exact Hobs|]. split; [exact I|]. split; [|lia].
      by apply ending_pending.
    + by apply settle_attempt_fuel in Hs.
Qed.

(** *** The trace only grows *)

Lemma grows_ret {A} (a : A) : grows (ret a).
Proof. intros w. exists []. simpl. by rewrite app_nil_r. Qed.

Lemma grows_bind {A B} (m : M A) (k : A -> M B) :
  grows m -> (forall a, grows (k a)) -> grows (bind m k).
Proof.
  intros Hm Hk w. unfold bind.
  destruct (Hm w) as [evs1 H1]. destruct (m w) as [a w1]. simpl in H1.
  destruct (Hk a w1) as [evs2 H2]. exists (evs1 ++ evs2).
  by rewrite H2, H1, app_assoc.
Qed.

Lemma grows_emit e : grows (emit e).
Proof. intros w. by exists [e]. Qed.

Lemma grows_read : grows read.
Proof. intros w. exists []. simpl. by rewrite app_nil_r. Qed.

Lemma grows_write t : grows (write t).
Proof. intros w. exists []. simpl. by rewrite app_nil_r. Qed.

Lemma grows_if {A} (c : bool) (m1 m2 : M A) :
  grows m1 -> grows m2 -> grows (if c then m1 else m2).
Proof. by destruct c. Qed.

Create HintDb grows.
#[local] Hint Resolve grows_ret grows_emit grows_read grows_write : grows.

Ltac grows_step :=
  first [ apply grows_bind; [|intros ?]
        | apply grows_if
        | solve [auto with grows] ].

Lemma grows_call_task b : grows (call_task b).
Proof.
  unfold call_task. apply grows_bind; [auto with grows|]. intros t.
  apply grows_bind; [auto with grows|]. intros _ w.
  exists []. simpl. by rewrite app_nil_r.
Qed.

Lemma grows_call_done b : grows (call_done b).
Proof.
  unfold call_done. apply grows_bind; [auto with grows|]. intros _ w.
  exists []. simpl. by rewrite app_nil_r.
Qed.

Lemma grows_incMonitor b name extra : grows (_incMonitor b name extra).
Proof. unfold _incMonitor. repeat grows_step. Qed.

Lemma grows_createTimer b : grows (_createTimer b).
Proof. unfold _createTimer. repeat grows_step. Qed.

#[local] Hint Resolve grows_call_task grows_call_done grows_incMonitor
  grows_createTimer : grows.

Lemma grows_start_attempt b : grows (start_attempt b).
Proof.
  unfold start_attempt, post_increment_attempt. repeat grows_step.
Qed.

Lemma grows_on_success b v : grows (on_success b v).
Proof. unfold on_success. repeat grows_step. Qed.

Lemma grows_on_timeout b e : grows (on_timeout b e).
Proof. unfold on_timeout. repeat grows_step. Qed.

Lemma grows_on_error e : grows (on_error e).
Proof. unfold on_error. repeat grows_step. Qed.

Lemma grows_on_stop b e : grows (on_stop b e).
Proof. unfold on_stop, _reportError. repeat grows_step. Qed.

Lemma grows_on_failure b rerun e : grows rerun -> grows (on_failure b rerun e).
Proof.
  intros Hrerun. unfold on_failure, _reportError, set_retryDelay.
  repeat grows_step.
Qed.

Lemma grows_then h p : (forall v, grows (h v)) -> grows (then_ h p).
Proof. intros Hh. destruct p; simpl; auto with grows. Qed.

Lemma grows_catch filter h p : (forall e, grows (h e)) -> grows (catch_ filter h p).
Proof.
  intros Hh. destruct p; simpl; auto with grows.
  destruct (filter reason); auto with grows.
Qed.

Lemma grows_finally h p : grows h -> grows (finally_ h p).
Proof.
  intros Hh. destruct p; simpl; auto with grows;
    (apply grows_bind; [done|intros; auto with grows]).
Qed.

Lemma grows_run b fuel : grows (run b fuel).
Proof.
  induction fuel as [|fuel IH]; [apply grows_ret|].
  cbn [run].
  apply grows_bind; [apply grows_incMonitor|intros _].
  apply grows_bind; [apply grows_createTimer|intros timer].
  apply grows_bind; [apply grows_start_attempt|intros p0].
  apply grows_bind; [apply grows_then, grows_on_success|intros p1].
  apply grows_bind; [apply grows_catch, grows_on_timeout|intros p2].
  apply grows_bind; [apply grows_catch, grows_on_error|intros p3].
  apply grows_bind; [apply grows_catch, grows_on_stop|intros p4].
  apply grows_bind; [apply grows_catch; intros; by apply grows_on_failure|intros p5].
  apply grows_finally. destruct timer; simpl; auto with grows.
Qed.

(** ** The retry delay *)

Section Delay.
Variables (max d0 : Z).

Local Abbreviation delay k := (Nat.iter k (next_retryDelay max) d0).

Lemma delay_S k :
  delay (S k) = if delay k <? max then delay k * 2 else delay k.
Proof. reflexivity. Qed.

Lemma delay_nonneg k : 0 <= d0 -> 0 <= delay k.
Proof.
  intros H0. induction k as [|k IH]; [done|].
  rewrite delay_S. destruct (Z.ltb_spec (delay k) max); lia.
Qed.

Lemma delay_step_mono k : 0 <= d0 -> delay k <= delay (S k).
Proof.
  intros H0. pose proof (delay_nonneg k H0).
  rewrite delay_S. destruct (Z.ltb_spec (delay k) max); lia.
Qed.

Lemma delay_mono i j : 0 <= d0 -> (i <= j)%nat -> delay i <= delay j.
Proof.
  intros H0. induction 1 as [|j _ IH]; [lia|].
  pose proof (delay_step_mono j H0). lia.
Qed.

Lemma delay_stable i j : max <= delay i -> (i <= j)%nat -> delay j = delay i.
Proof.
  intros Hmax. induction 1 as [|j _ IH]; [done|].
  rewrite delay_S, IH. destruct (Z.ltb_spec (delay i) max); lia.
Qed.

Lemma delay_below_twice_max k : 0 <= d0 -> d0 < 2 * max -> delay k < 2 * max.
Proof.
  intros H0 Hlt. induction k as [|k IH]; [done|].
  rewrite delay_S. destruct (Z.ltb_spec (delay k) max); lia.
Qed.

Lemma delay_closed_form k :
  0 < d0 ->
  exists n, (n <= k)%nat /\ delay k = d0 * 2 ^ Z.of_nat n
            /\ ((n < k)%nat -> max <= delay k)
            /\ ((0 < n)%nat -> d0 * 2 ^ (Z.of_nat n - 1) < max).
Proof.
  intros H0. induction k as [|k (n & Hn & Heq & Hcap & Hlow)].
  - exists 0%nat. split; [lia|]. split; [simpl; lia|]. split; lia.
  - rewrite delay_S. destruct (Z.ltb_spec (delay k) max) as [Hlt|Hge].
    + assert (n = k) as -> by (destruct (decide (n = k)); [done|]; lia).
      exists (S k). split; [lia|]. split.
      * rewrite Heq, Nat2Z.inj_succ, Z.pow_succ_r by lia. lia.
      * split; [lia|]. intros _.
        replace (Z.of_nat (S k) - 1) with (Z.of_nat k) by lia. lia.
    + exists n. split; [lia|]. split; [done|]. split; [lia|done].
Qed.

Lemma delay_doubling_below_max k :
  0 < d0 -> d0 * 2 ^ Z.of_nat k <= max -> delay k = d0 * 2 ^ Z.of_nat k.
Proof.
  intros H0. induction k as [|k IH]; intros Hle; [simpl; lia|].
  rewrite Nat2Z.inj_succ, Z.pow_succ_r in Hle |- * by lia.
  assert (0 < 2 ^ Z.of_nat k) by (apply Z.pow_pos_nonneg; lia).
  rewrite delay_S, IH by nia.
  destruct (Z.ltb_spec (d0 * 2 ^ Z.of_nat k) max); nia.
Qed.

Lemma delay_constant k : max <= d0 -> delay k = d0.
Proof. intros H. by apply (delay_stable 0 k); [|lia]. Qed.

End Delay.

Lemma delays_retry_events j max errs : forall d,
  delays (retry_events j max d errs)
  = map (fun k => Nat.iter k (next_retryDelay max) d) (seq 0 (length errs)).
Proof.
  induction errs as [|err errs IH]; intros d; [done|].
  cbn [retry_events length seq map]. unfold delays in *. cbn [omap mbind option_bind].
  simpl. f_equal. rewrite IH, <- seq_shift, map_map.
  apply map_ext. intros k. by rewrite Nat.iter_succ_r.
Qed.

Lemma reports_retry_events j max errs : forall d,
  reports (retry_events j max d errs) = errs.
Proof.
  induction errs as [|err errs IH]; intros d; [done|].
  unfold reports in *. simpl. by rewrite IH.
Qed.

Lemma tasks_retry_events j max errs : forall d,
  tasks (retry_events j max d errs) = length errs.
Proof.
  induction errs as [|err errs IH]; intros d; [done|].
  unfold tasks in *. simpl. by rewrite IH.
Qed.

Lemma dones_retry_events j max errs : forall d,
  dones (retry_events j max d errs) = 0%nat.
Proof.
  induction errs as [|err errs IH]; intros d; [done|].
  unfold dones in *. simpl. by rewrite IH.
Qed.

Lemma settle_attempt_ext t t' r :
  msTimeout t = msTimeout t' -> settle_attempt t r = settle_attempt t' r.
Proof. intros H. unfold settle_attempt. by rewrite H. Qed.

Lemma normalize_ext t t' reason :
  queue t = queue t' -> job t = job t' -> normalize t reason = normalize t' reason.
Proof. intros Hq Hj. unfold normalize. by rewrite Hq, Hj. Qed.

(** The first [length errs] delays of a run whose first attempts are
    retried. *)
Lemma run_retry_delays b t errs fuel :
  fails_retryably b t 0 errs ->
  exists later,
    delays (trace (run b (length errs + fuel) (fresh t)).2)
    = map (fun k => Nat.iter k (next_retryDelay (max_retry_delay b)) (retryDelay t))
        (seq 0 (length errs)) ++ later.
Proof.
  intros Hfail.
  destruct (run_retries b errs (fresh t) fuel Hfail) as (evs & Hobs & Hnext).
  cbn [fresh this task_calls done_calls trace] in *.
  set (w1 := {| this := _; task_calls := _; done_calls := _; trace := _ |}) in Hnext.
  destruct (grows_run b fuel w1) as [more Hmore].
  destruct (run b fuel w1) as [p w2] eqn:Hgo.
  destruct (Hnext p w2 eq_refl) as (evs' & Hobs' & ->).
  simpl in Hmore |- *. rewrite Hmore. subst w1. simpl.
  exists (delays more ++ delays evs').
  rewrite !delays_app, <- app_assoc. f_equal.
  by rewrite <- delays_observe, Hobs, delays_retry_events.
Qed.

(** Retried failures followed by a success, with a callback that returns. *)
Lemma run_fails_then_succeeds b t errs v r fuel :
  fails_retryably b t 0 errs ->
  settle_attempt t (task b (length errs)) = Fulfilled v ->
  done b 0%nat = Normal r ->
  exists w',
    run b (S (length errs) + fuel) (fresh t) = (Fulfilled r, w')
    /\ observe (trace w')
       = retry_events (job t) (max_retry_delay b) (retryDelay t) errs
         ++ [EvTask (job t); EvDone]
    /\ attempt (this w') = attempt t + Z.of_nat (length errs) + 1.
Proof.
  intros Hfail Hok Hdone.
  destruct (run_retries b errs (fresh t) (S fuel) Hfail) as (evs & Hobs & Hnext).
  cbn [fresh this task_calls done_calls trace] in *.
  set (w1 := {| this := _; task_calls := _; done_calls := _; trace := _ |}) in Hnext.
  destruct (iter_retried (max_retry_delay b) t (length errs))
    as (Ha & Hd & Hj & Hq & Hm & Ht).
  destruct (run_success b fuel w1 v r) as (evs1 & Hobs1 & Hrun); [| done |].
  { subst w1. cbn [this task_calls]. by rewrite (settle_attempt_ext _ t). }
  destruct (Hnext _ _ Hrun) as (evs' & Hobs' & Hall).
  replace (S (length errs) + fuel)%nat with (length errs + S fuel)%nat by lia.
  eexists. split; [exact Hall|].
  subst w1. cbn [this task_calls done_calls trace attempted attempt] in *. split.
  - rewrite !observe_app, Hobs, Hobs1, Hobs', Hj. cbn [app]. by rewrite app_nil_r.
  - rewrite Ha. lia.
Qed.

(** Retried failures followed by a failure that stops the worker, with a
    callback that returns. *)
Lemma run_fails_then_stops b t errs reason err r fuel :
  fails_retryably b t 0 errs ->
  settle_attempt t (task b (length errs)) = Rejected reason ->
  normalize t reason = Throw err ->
  instanceof err CWorkerStopError = true ->
  done b 0%nat = Normal r ->
  exists w',
    run b (S (length errs) + fuel) (fresh t) = (Fulfilled r, w')
    /\ observe (trace w')
       = retry_events (job t) (max_retry_delay b) (retryDelay t) errs
         ++ [EvTask (job t); EvReport err; EvDone]
    /\ attempt (this w') = attempt t + Z.of_nat (length errs) + 1.
Proof.
  intros Hfail Hrej Hnorm Hstop Hdone.
  destruct (run_retries b errs (fresh t) (S fuel) Hfail) as (evs & Hobs & Hnext).
  cbn [fresh this task_calls done_calls trace] in *.
  set (w1 := {| this := _; task_calls := _; done_calls := _; trace := _ |}) in Hnext.
  destruct (iter_retried (max_retry_delay b) t (length errs))
    as (Ha & Hd & Hj & Hq & Hm & Ht).
  destruct (run_stop b fuel w1 reason err r) as (evs1 & Hobs1 & Hrun); [| |done|done|].
  { subst w1. cbn [this task_calls]. by rewrite (settle_attempt_ext _ t). }
  { subst w1. cbn [this]. by rewrite (normalize_ext _ t). }
  destruct (Hnext _ _ Hrun) as (evs' & Hobs' & Hall).
  replace (S (length errs) + fuel)%nat with (length errs + S fuel)%nat by lia.
  eexists. split; [exact Hall|].
  subst w1. cbn [this task_calls done_calls trace attempted attempt] in *. split.
  - rewrite !observe_app, Hobs, Hobs1, Hobs', Hj. cbn [app]. by rewrite app_nil_r.
  - rewrite Ha. lia.
Qed.

(** C1, as the code has it.  After a retried failure the delay is doubled
    when it is below the maximum and left as it is otherwise, so it is not
    clamped to the maximum and never grows when the maximum is 0.  For a
    task whose first [K] attempts fail and are retried, the delays waited
    for are the iterates of that rule from the initial delay; when the
    task then succeeds and the callback returns, there are no others.  A
    positive initial delay after [k] failures is the initial delay doubled
    [n <= k] times, doubling having stopped at the first value that
    reaches the maximum; it is [initial * 2^k], the minimum of the
    specification, as long as that does not exceed the maximum, and it is
    the initial delay when the maximum is not above it. *)
Theorem retry_delay_schedule b t errs :
  fails_retryably b t 0 errs ->
  let max := max_retry_delay b in
  let delay := fun k => Nat.iter k (next_retryDelay max) (retryDelay t) in
  let K := length errs in
  (forall k, delay (S k) = if delay k <? max then delay k * 2 else delay k)
  /\ (forall fuel, exists later,
        delays (trace (run b (K + fuel) (fresh t)).2) = map delay (seq 0 K) ++ later)
  /\ (forall v r fuel,
        task b K = Returns v -> done b 0%nat = Normal r ->
        delays (trace (run b (S K + fuel) (fresh t)).2) = map delay (seq 0 K))
  /\ (forall k, 0 < retryDelay t ->
        exists n, (n <= k)%nat
                  /\ delay k = retryDelay t * 2 ^ Z.of_nat n
                  /\ ((n < k)%nat -> max <= delay k)
                  /\ ((0 < n)%nat -> retryDelay t * 2 ^ (Z.of_nat n - 1) < max))
  /\ (forall k, 0 < retryDelay t -> retryDelay t * 2 ^ Z.of_nat k <= max ->
        delay k = Z.min (retryDelay t * 2 ^ Z.of_nat k) max)
  /\ (forall k, max <= retryDelay t -> delay k = retryDelay t).
Proof.
  intros Hfail max delay K.
  split; [|split; [|split; [|split; [|split]]]].
  - intros k. reflexivity.
  - intros fuel. by apply run_retry_delays.
  - intros v r fuel Hv Hr. subst K.
    destruct (run_fails_then_succeeds b t errs v r fuel Hfail) as (w' & Hrun & Hobs & _);
      [by rewrite Hv|done|].
    rewrite Hrun. cbn [snd].
    rewrite <- delays_observe, Hobs, delays_app, delays_retry_events.
    by rewrite app_nil_r.
  - intros k H0. by apply delay_closed_form.
  - intros k H0 Hle. subst delay. cbv beta.
    rewrite delay_doubling_below_max by done. lia.
  - intros k Hle. by apply delay_constant.
Qed.

Lemma retry_delay_schedule_witness :
  delays (trace (run (Samples.flaky 2) 3 (fresh Samples.worker3)).2) = [3; 6].
Proof.
  pose proof (retry_delay_schedule (Samples.flaky 2) Samples.worker3
                [Samples.boom_reported; Samples.boom_reported]) as H.
  destruct H as (_ & _ & H & _).
  - simpl. repeat split; try (exists (Samples.wrapped Samples.boom); split; reflexivity).
  - apply (H (VStr "ok") VUndefined 0%nat); reflexivity.
Defined.

(** C1 as stated fails: with a maximum of 4 ms and an initial delay of
    3 ms, the second retry waits 6 ms where the stated rule gives 4; and
    with a maximum of 0 the delay stays at 3 ms where the stated rule
    doubles it. *)
Lemma retry_delay_not_clamped :
  delays (trace (run (Samples.flaky 2) 3 (fresh Samples.worker3)).2) = [3; 6]
  /\ spec_delay_before 3 (max_retry_delay (Samples.flaky 2)) 2 = 4
  /\ next_retryDelay 4 3 = 6 /\ spec_next_delay 4 3 = 4
  /\ next_retryDelay 0 3 = 3 /\ spec_next_delay 0 3 = 6.
Proof. repeat split; vm_compute; reflexivity. Qed.

(** C2, as the code has it.  From a non-negative initial delay, the delays
    of a run never decrease, and once a delay has reached or passed the
    maximum every later delay equals it; a delay that started below twice
    the maximum stays below twice the maximum (it may pass the maximum
    itself). *)
Theorem retry_delay_monotone_then_stable b t errs :
  fails_retryably b t 0 errs ->
  0 <= retryDelay t ->
  let max := max_retry_delay b in
  let delay := fun k => Nat.iter k (next_retryDelay max) (retryDelay t) in
  (forall fuel, exists later,
     delays (trace (run b (length errs + fuel) (fresh t)).2)
     = map delay (seq 0 (length errs)) ++ later)
  /\ (forall i j, (i <= j)%nat -> delay i <= delay j)
  /\ (forall i j, (i <= j)%nat -> max <= delay i -> delay j = delay i)
  /\ (retryDelay t < 2 * max -> forall k, delay k < 2 * max).
Proof.
  intros Hfail H0 max delay. split; [|split; [|split]].
  - intros fuel. by apply run_retry_delays.
  - intros i j Hij. by apply delay_mono.
  - intros i j Hij Hmax. by apply delay_stable.
  - intros Hlt k. by apply delay_below_twice_max.
Qed.

Lemma retry_delay_monotone_then_stable_witness :
  exists later,
    delays (trace (run (Samples.flaky 3) (3 + 1) (fresh Samples.worker3)).2)
    = [3; 6; 6] ++ later.
Proof.
  refine (proj1 (retry_delay_monotone_then_stable (Samples.flaky 3) Samples.worker3
                   [Samples.boom_reported; Samples.boom_reported; Samples.boom_reported]
                   _ _) 1%nat).
  - simpl. repeat split; try (exists (Samples.wrapped Samples.boom); split; reflexivity).
  - simpl. lia.
Defined.

(** C2 as stated fails: with a maximum of 4 ms and an initial delay of
    3 ms, the second retry waits 6 ms, which has passed the maximum, and
    the third retry waits 6 ms again, above the maximum. *)
Lemma retry_delay_exceeds_max :
  let ds := delays (trace (run (Samples.flaky 3) 4 (fresh Samples.worker3)).2) in
  let max := max_retry_delay (Samples.flaky 3) in
  ds = [3; 6; 6] /\ max = 4
  /\ (exists d, ds !! 1%nat = Some d /\ max <= d)
  /\ (exists d, ds !! 2%nat = Some d /\ max < d).
Proof.
  repeat split; try (vm_compute; reflexivity);
    exists 6; split; vm_compute; first [reflexivity|discriminate].
Qed.

(** ** Normalisation of errors *)

Lemma prop_insert_eq (f : gmap string value) k x : prop (<[ k := x ]> f) k = x.
Proof. unfold prop. by rewrite lookup_insert_eq. Qed.

Lemma prop_insert_ne (f : gmap string value) k k' x :
  k <> k' -> prop (<[ k := x ]> f) k' = prop f k'.
Proof. intros. unfold prop. by rewrite lookup_insert_ne. Qed.

Lemma get_object c f k : get (VObj c f) k = Normal (prop f k).
Proof. reflexivity. Qed.

Lemma set_data_object c f dc d k x :
  set_data (VObj c f) (VObj dc d) k x
  = Normal (VObj c (<[ "data" := VObj dc (<[ k := x ]> d) ]> f)).
Proof. reflexivity. Qed.

Lemma prop_Some (f : gmap string value) k c d :
  prop f k = VObj c d -> f !! k = Some (VObj c d).
Proof. unfold prop. destruct (f !! k); simpl; congruence. Qed.

Lemma isObject_inv v : isObject v = true -> exists c d, v = VObj c d.
Proof. destruct v; try done. eauto. Qed.

(** The rest of [normalize] once [err.data] is an object. *)
Lemma normalize_fill t c f dc d :
  prop f "data" = VObj dc d ->
  (let? data := get (VObj c f) "data" in
   let? q := get data "queue" in
   let? err := (if negb (truthy q) then set_data (VObj c f) data "queue" (VStr (queue t))
                else Normal (VObj c f)) in
   let? data := get err "data" in
   let? j := get data "job" in
   let? err := (if negb (truthy j) then set_data err data "job" (job t)
                else Normal err) in
   (Throw err : completion value))
  = Throw (VObj c (<[ "data" := VObj dc (with_context t d) ]> f)).
Proof.
  intros Hd. unfold with_context.
  rewrite get_object, Hd. cbn [cbind]. rewrite get_object. cbn [cbind].
  destruct (truthy (prop d "queue")); cbn [negb cbind].
  - rewrite get_object, Hd. cbn [cbind]. rewrite get_object. cbn [cbind].
    destruct (truthy (prop d "job")); cbn [negb cbind].
    + by rewrite (insert_id f "data") by by apply prop_Some.
    + by rewrite set_data_object.
  - rewrite set_data_object. cbn [cbind].
    rewrite get_object, prop_insert_eq. cbn [cbind]. rewrite get_object. cbn [cbind].
    destruct (truthy (prop (<[ "queue" := VStr (queue t) ]> d) "job")); cbn [negb cbind].
    + done.
    + by rewrite set_data_object, insert_insert_eq.
Qed.

Lemma normalize_object t err c f dc d :
  unwrap err = Normal (VObj c f) ->
  prop f "data" = VObj dc d -> isObject (VObj dc d) = true ->
  normalize t err = Throw (VObj c (<[ "data" := VObj dc (with_context t d) ]> f)).
Proof.
  intros Hun Hd Hobj. unfold normalize. rewrite Hun. cbn [cbind].
  rewrite get_object, Hd. cbn [cbind]. rewrite Hobj. cbn [negb cbind].
  by apply normalize_fill.
Qed.

Lemma normalize_no_data t err c f :
  unwrap err = Normal (VObj c f) ->
  isObject (prop f "data") = false ->
  normalize t err = Throw (VObj c (<[ "data" := VObj CObject (with_context t ∅) ]> f)).
Proof.
  intros Hun Hobj. unfold normalize. rewrite Hun. cbn [cbind].
  rewrite get_object. cbn [cbind]. rewrite Hobj. cbn [negb cbind set].
  rewrite (normalize_fill t c _ CObject ∅) by apply prop_insert_eq.
  by rewrite insert_insert_eq.
Qed.

(** An error object keeps its class through [normalize]. *)
Lemma normalize_class t err c f :
  unwrap err = Normal (VObj c f) -> exists f', normalize t err = Throw (VObj c f').
Proof.
  intros Hun. destruct (isObject (prop f "data")) eqn:Hobj.
  - destruct (isObject_inv _ Hobj) as (dc & d & Hd). rewrite Hd in Hobj.
    eexists. by apply (normalize_object t err c f dc d).
  - eexists. by apply normalize_no_data.
Qed.

Lemma with_context_queue t d :
  with_context t d !! "queue"
  = if truthy (prop d "queue") then d !! "queue" else Some (VStr (queue t)).
Proof.
  unfold with_context.
  destruct (truthy (prop d "queue"));
    destruct (truthy (prop _ "job")); by simplify_map_eq.
Qed.

Lemma with_context_job t d :
  with_context t d !! "job"
  = if truthy (prop d "job") then d !! "job" else Some (job t).
Proof.
  unfold with_context.
  destruct (truthy (prop d "queue")) eqn:Hq.
  - destruct (truthy (prop d "job")); by simplify_map_eq.
  - rewrite prop_insert_ne by done.
    destruct (truthy (prop d "job")); by simplify_map_eq.
Qed.

Lemma with_context_other t d k :
  k <> "queue" -> k <> "job" -> with_context t d !! k = d !! k.
Proof.
  intros Hq Hj. unfold with_context.
  destruct (truthy (prop d "queue"));
    destruct (truthy (prop _ "job")); by simplify_map_eq.
Qed.

(** C7, as the code has it.  The error is replaced by its [cause] when
    that is truthy.  When the result is an object, [normalize] throws it
    with only its [data] touched; the [data] it then holds has the
    properties of the old one if that was an object, and of a fresh object
    otherwise, but for [queue] and [job]: each is kept when truthy, and
    set from the worker when falsy (absent, or present and [null],
    [false], [0], [NaN] or ['']). *)
Theorem normalize_fills_falsy_context t err c f :
  unwrap err = Normal (VObj c f) ->
  (forall cause, get err "cause" = Normal cause ->
     VObj c f = if truthy cause then cause else err)
  /\ exists dc d d',
      normalize t err = Throw (VObj c (<[ "data" := VObj dc d' ]> f))
      /\ (isObject (prop f "data") = true -> prop f "data" = VObj dc d)
      /\ (isObject (prop f "data") = false -> dc = CObject /\ d = ∅)
      /\ d' !! "queue"
         = (if truthy (prop d "queue") then d !! "queue" else Some (VStr (queue t)))
      /\ d' !! "job" = (if truthy (prop d "job") then d !! "job" else Some (job t))
      /\ (forall k, k <> "queue" -> k <> "job" -> d' !! k = d !! k)
      /\ (forall k, k <> "data" -> (<[ "data" := VObj dc d' ]> f) !! k = f !! k).
Proof.
  intros Hun. split.
  - intros cause Hcause. unfold unwrap in Hun. rewrite Hcause in Hun.
    cbn [cbind] in Hun. congruence.
  - destruct (isObject (prop f "data")) eqn:Hobj.
    + destruct (isObject_inv _ Hobj) as (dc & d & Hd). rewrite Hd in Hobj.
      exists dc, d, (with_context t d).
      split; [by apply normalize_object|].
      split; [done|]. split; [done|].
      split; [apply with_context_queue|]. split; [apply with_context_job|].
      split; [apply with_context_other|].
      intros k Hk. by rewrite lookup_insert_ne.
    + exists CObject, ∅, (with_context t ∅).
      split; [by apply normalize_no_data|].
      split; [done|]. split; [done|].
      split; [apply with_context_queue|]. split; [apply with_context_job|].
      split; [apply with_context_other|].
      intros k Hk. by rewrite lookup_insert_ne.
Qed.

Lemma normalize_fills_falsy_context_witness :
  exists dc d',
    normalize Samples.worker3 Samples.boom_elsewhere
    = Throw (VObj CError (<[ "data" := VObj dc d' ]> (fields Samples.boom_elsewhere)))
    /\ d' !! "queue" = Some (VStr "other.queue")
    /\ d' !! "job" = Some Samples.payload.
Proof.
  destruct (normalize_fills_falsy_context Samples.worker3 Samples.boom_elsewhere
              CError (fields Samples.boom_elsewhere) eq_refl)
    as (_ & dc & d & d' & Hn & Hd & _ & Hq & Hj & _).
  exists dc, d'. split; [exact Hn|].
  assert (Hdata : VObj CObject {[ "queue" := VStr "other.queue" ]} = VObj dc d)
    by (apply Hd; reflexivity).
  injection Hdata as <- <-.
  split; [exact Hq|exact Hj].
Defined.

(** C7 as stated fails: a job payload [0] and a queue name [''] present in
    the data of the error are overwritten with those of the worker. *)
Lemma normalize_overwrites_falsy :
  let before := fields (prop (fields Samples.boom_falsy) "data") in
  before !! "job" = Some (VNum 0)
  /\ before !! "queue" = Some (VStr "")
  /\ exists f',
      normalize Samples.worker3 Samples.boom_falsy = Throw (VObj CError f')
      /\ fields (prop f' "data") !! "job" = Some Samples.payload
      /\ fields (prop f' "data") !! "queue" = Some (VStr "api.github.push").
Proof.
  split; [reflexivity|]. split; [reflexivity|].
  eexists. split; [vm_compute; reflexivity|]. split; reflexivity.
Qed.

Lemma normalize_unwrapped t err c f :
  unwrap err = Normal (VObj c f) ->
  exists dc d,
    normalize t err = Throw (VObj c (<[ "data" := VObj dc (with_context t d) ]> f))
    /\ (isObject (prop f "data") = true -> prop f "data" = VObj dc d)
    /\ (isObject (prop f "data") = false -> dc = CObject /\ d = ∅).
Proof.
  intros Hun. destruct (isObject (prop f "data")) eqn:Hobj.
  - destruct (isObject_inv _ Hobj) as (dc & d & Hd). rewrite Hd in Hobj.
    exists dc, d. split; [by apply normalize_object|]. by split.
  - exists CObject, ∅. split; [by apply normalize_no_data|]. by split.
Qed.

(** ** Classification of failures *)

Lemma messages_app tr1 tr2 : messages (tr1 ++ tr2) = messages tr1 ++ messages tr2.
Proof. apply omap_app. Qed.

(** The first attempt of a run, when it fails: what is logged and what is
    shown, the rest of the run being cut off. *)
Lemma run_once_rejected b w reason err :
  settle_attempt (this w) (task b (task_calls w)) = Rejected reason ->
  normalize (this w) reason = Throw err ->
  (exists r, done b (done_calls w) = Normal r) ->
  exists evs,
    trace (run b 1 w).2 = trace w ++ evs
    /\ messages evs
       = "running task"
           :: (if instanceof reason CTimeoutError then ["Task timed out"] else [])
           ++ [if instanceof err CWorkerStopError then "Worker task fatally errored"
               else "Task failed, retrying"]
    /\ observe evs
       = [EvTask (job (this w)); EvReport err;
          if instanceof err CWorkerStopError then EvDone
          else EvDelay (retryDelay (this w))]
    /\ this (run b 1 w).2
       = if instanceof err CWorkerStopError then attempted (this w)
         else retried (max_retry_delay b) (this w).
Proof.
  destruct_world w. intros Hrej Hnorm [r Hdone].
  cbn [run]. run_unfold.
  destruct (monitor_disabled b) eqn:Hm; rewrite Hrej;
    destruct (instanceof reason CTimeoutError) eqn:Ht;
    rewrite ?Hm;
    rewrite (normalize_attempt {| attempt := a; job := j; msTimeout := ms; queue := q;
                                  retryDelay := d; tid := ti |}), Hnorm;
    destruct (instanceof err CWorkerStopError) eqn:Hstop;
    rewrite ?Hm, ?Hdone; cbn [snd trace this]; rewrite <- ?app_assoc;
    (eexists; split; [reflexivity|]); repeat split.
Qed.

(** An attempt that fails with what [normalize] turns into a
    [WorkerStopError], when the callback throws: the error of the callback
    is reported and the task retried. *)
Lemma run_stop_done_throws b fuel w reason err e :
  settle_attempt (this w) (task b (task_calls w)) = Rejected reason ->
  normalize (this w) reason = Throw err ->
  instanceof err CWorkerStopError = true ->
  done b (done_calls w) = Throw e ->
  exists evs,
    observe evs = [EvTask (job (this w)); EvReport err; EvDone;
                   EvReport e; EvDelay (retryDelay (this w))]
    /\ run b (S fuel) w
       = let '(p, w2) := run b fuel {| this := retried (max_retry_delay b) (this w);
                                      task_calls := S (task_calls w);
                                      done_calls := S (done_calls w);
                                      trace := trace w ++ evs |} in
         finally_ (stop_timer (negb (monitor_disabled b))) p w2.
Proof.
  destruct_world w. intros Hrej Hnorm Hstop Hdone.
  cbn [run]. run_unfold.
  destruct (monitor_disabled b) eqn:Hm; rewrite Hrej;
    destruct (instanceof reason CTimeoutError) eqn:Ht;
    rewrite ?Hm;
    rewrite (normalize_attempt {| attempt := a; job := j; msTimeout := ms; queue := q;
                                  retryDelay := d; tid := ti |}), Hnorm, Hstop;
    rewrite ?Hm, Hdone, ?Hm, <- ?app_assoc;
    (eexists; split; [|reflexivity]); reflexivity.
Qed.

(** An attempt that fails with what [normalize] turns into a
    [WorkerStopError] reports it and calls the callback, whatever the
    callback then does. *)
Lemma run_stop_prefix b fuel w reason err :
  settle_attempt (this w) (task b (task_calls w)) = Rejected reason ->
  normalize (this w) reason = Throw err ->
  instanceof err CWorkerStopError = true ->
  exists more,
    observe (trace (run b (S fuel) w).2)
    = observe (trace w) ++ [EvTask (job (this w)); EvReport err; EvDone] ++ more.
Proof.
  intros Hrej Hnorm Hstop.
  destruct (done b (done_calls w)) as [r|e] eqn:Hdone.
  - destruct (run_stop b fuel w reason err r Hrej Hnorm Hstop Hdone) as (evs & Hobs & ->).
    exists []. cbn [snd trace]. by rewrite observe_app, Hobs.
  - destruct (run_stop_done_throws b fuel w reason err e Hrej Hnorm Hstop Hdone)
      as (evs & Hobs & ->).
    set (w1 := {| this := _; task_calls := _; done_calls := _; trace := _ |}).
    destruct (grows_run b fuel w1) as [more Hmore].
    destruct (run b fuel w1) as [p w2]. cbn [snd] in Hmore.
    destruct (finally_stop_timer (negb (monitor_disabled b)) p w2) as (evs' & Hobs' & ->).
    cbn [snd trace]. rewrite Hmore. subst w1. cbn [trace].
    rewrite !observe_app, Hobs, Hobs', app_nil_r.
    exists ([EvReport e; EvDelay (retryDelay (this w))] ++ observe more).
    by rewrite <- !app_assoc.
Qed.

(** C10. An error whose [cause] is a [WorkerStopError], like a
    [WorkerStopError] without a cause, goes through [normalize] before the
    check for [WorkerStopError]: what is reported is the unwrapped error
    with the context filled into its data, the callback is called right
    after the report, and when the callback returns the run is over with
    no retry. *)
Theorem stop_cause_is_fatal b t reason cf fuel :
  settle_attempt t (task b 0) = Rejected reason ->
  get reason "cause" = Normal (VObj CWorkerStopError cf)
  \/ (reason = VObj CWorkerStopError cf /\ truthy (prop cf "cause") = false) ->
  exists dc d,
    let err := VObj CWorkerStopError (<[ "data" := VObj dc (with_context t d) ]> cf) in
    normalize t reason = Throw err
    /\ (isObject (prop cf "data") = true -> prop cf "data" = VObj dc d)
    /\ (isObject (prop cf "data") = false -> dc = CObject /\ d = ∅)
    /\ (exists more,
          observe (trace (run b (S fuel) (fresh t)).2)
          = [EvTask (job t); EvReport err; EvDone] ++ more)
    /\ (forall r, done b 0%nat = Normal r ->
          exists w',
            run b (S fuel) (fresh t) = (Fulfilled r, w')
            /\ observe (trace w') = [EvTask (job t); EvReport err; EvDone]
            /\ delays (trace w') = []).
Proof.
  intros Hrej Hcause.
  assert (Hun : unwrap reason = Normal (VObj CWorkerStopError cf)).
  { unfold unwrap. destruct Hcause as [->|[-> Hno]]; [done|].
    rewrite get_object. cbn [cbind]. by rewrite Hno. }
  destruct (normalize_unwrapped t reason _ _ Hun) as (dc & d & Hnorm & Hobj & Hnone).
  exists dc, d. cbv zeta.
  split; [done|]. split; [done|]. split; [done|]. split.
  - destruct (run_stop_prefix b fuel (fresh t) reason _ Hrej Hnorm eq_refl) as [more Hmore].
    by exists more.
  - intros r Hdone.
    destruct (run_fails_then_stops b t [] reason _ r fuel I Hrej Hnorm eq_refl Hdone)
      as (w' & Hrun & Hobs & _).
    exists w'. split; [done|]. split; [done|].
    by rewrite <- delays_observe, Hobs.
Qed.

Lemma stop_cause_is_fatal_witness :
  exists w',
    run (Samples.steady (Fails (Samples.wrapped Samples.stop))) 1 (fresh Samples.worker3)
    = (Fulfilled VUndefined, w')
    /\ observe (trace w')
       = [EvTask Samples.payload; EvReport Samples.stop_reported; EvDone].
Proof.
  destruct (stop_cause_is_fatal (Samples.steady (Fails (Samples.wrapped Samples.stop)))
              Samples.worker3 (Samples.wrapped Samples.stop)
              {[ "message" := VStr "bad job" ]} 0 eq_refl (or_introl eq_refl))
    as (dc & d & Hnorm & _ & Hnone & _ & Hdone).
  destruct (Hnone eq_refl) as [-> ->].
  destruct (Hdone VUndefined eq_refl) as (w' & Hrun & Hobs & _).
  exists w'. split; [exact Hrun|exact Hobs].
Defined.

(** C4, as the code has it, on the first attempt of a run with a callback
    that returns.  The timeout check comes first and is made on the error
    as raised: it logs the timeout and passes the error on.  The
    error is then normalised, and the fatal check is made on the result:
    the callback is called when that is a [WorkerStopError], and the task
    is retried after the current delay otherwise, timeout or not.  For an
    error object without a truthy [cause] the outcome is the one the
    specification gives: fatal for a [WorkerStopError], a logged timeout
    and a retry for a [TimeoutError], a retry for any other. *)
Theorem classification_after_normalize b t reason err :
  settle_attempt t (task b 0) = Rejected reason ->
  normalize t reason = Throw err ->
  done_returns b ->
  let w' := (run b 1 (fresh t)).2 in
  messages (trace w')
  = "running task"
      :: (if instanceof reason CTimeoutError then ["Task timed out"] else [])
      ++ [if instanceof err CWorkerStopError then "Worker task fatally errored"
          else "Task failed, retrying"]
  /\ observe (trace w')
     = [EvTask (job t); EvReport err;
        if instanceof err CWorkerStopError then EvDone else EvDelay (retryDelay t)]
  /\ this w'
     = (if instanceof err CWorkerStopError then attempted t
        else retried (max_retry_delay b) t)
  /\ (forall c f,
        reason = VObj c f -> truthy (prop f "cause") = false ->
        (exists f', err = VObj c f')
        /\ messages (trace w')
           = "running task"
               :: match spec_classify reason with
                  | Fatal => ["Worker task fatally errored"]
                  | Timeout => ["Task timed out"; "Task failed, retrying"]
                  | Retryable => ["Task failed, retrying"]
                  end
        /\ observe (trace w')
           = [EvTask (job t); EvReport err;
              match spec_classify reason with
              | Fatal => EvDone
              | _ => EvDelay (retryDelay t)
              end]).
Proof.
  intros Hrej Hnorm Hdone w'.
  destruct (run_once_rejected b (fresh t) reason err Hrej Hnorm (Hdone 0%nat))
    as (evs & Htr & Hmsg & Hobs & Hthis).
  cbn [fresh this trace app] in *. fold w' in Htr, Hthis.
  rewrite Htr. split; [done|]. split; [done|]. split; [done|].
  intros c f -> Hcause.
  assert (Hun : unwrap (VObj c f) = Normal (VObj c f)).
  { unfold unwrap. rewrite get_object. cbn [cbind]. by rewrite Hcause. }
  destruct (normalize_class t _ _ _ Hun) as [f' Hn].
  rewrite Hn in Hnorm. injection Hnorm as <-.
  split; [by exists f'|].
  rewrite Hmsg, Hobs. unfold spec_classify. by destruct c.
Qed.

Lemma classification_after_normalize_witness :
  let w' := (run (Samples.steady Unfinished) 1 (fresh Samples.worker250)).2 in
  messages (trace w') = ["running task"; "Task timed out"; "Task failed, retrying"]
  /\ delays (trace w') = [3].
Proof.
  assert (Hn : exists err,
             normalize Samples.worker250 TimeoutError = Throw err
             /\ instanceof err CWorkerStopError = false)
    by (eexists; split; [vm_compute; reflexivity|reflexivity]).
  destruct Hn as (err & Hn & Hstop).
  destruct (classification_after_normalize (Samples.steady Unfinished) Samples.worker250
              TimeoutError err eq_refl Hn)
    as (Hmsg & Hobs & _).
  { intros n. by exists VUndefined. }
  cbv zeta. split.
  - rewrite Hmsg, Hstop. reflexivity.
  - rewrite <- delays_observe, Hobs, Hstop. reflexivity.
Defined.

(** C4 as stated fails: a [WorkerStopError] that carries a cause is
    retried, not fatal, since the check is made on its cause; and a
    [TimeoutError] whose cause is a [WorkerStopError] is logged as a
    timeout and then handled as fatal. *)
Lemma marked_fatal_is_retried :
  spec_classify Samples.stop_with_cause = Fatal
  /\ (let w' := (run (Samples.steady (Fails Samples.stop_with_cause)) 1
                   (fresh Samples.worker3)).2 in
      messages (trace w') = ["running task"; "Task failed, retrying"]
      /\ observe (trace w')
         = [EvTask Samples.payload; EvReport Samples.boom_reported; EvDelay 3])
  /\ spec_classify Samples.timeout_with_stop_cause = Timeout
  /\ (let w' := (run (Samples.steady (Fails Samples.timeout_with_stop_cause)) 1
                   (fresh Samples.worker3)).2 in
      messages (trace w')
      = ["running task"; "Task timed out"; "Worker task fatally errored"]
      /\ observe (trace w')
         = [EvTask Samples.payload; EvReport Samples.stop_reported; EvDone]).
Proof. repeat split; vm_compute; reflexivity. Qed.

(** ** The completion callback *)

Lemma dones_ending b t n p tail :
  ending b t n p tail ->
  dones tail = match p with Fulfilled _ => 1%nat | _ => 0%nat end.
Proof. by inversion 1. Qed.

(** C3, for a callback that returns.  Whatever the task does and however
    many attempts are unfolded, a run is a series of retried attempts, each
    reporting an error that is not a [WorkerStopError] and waiting, followed
    by its ending: the callback is called at most once, as the last thing
    shown, after an attempt that succeeded or one whose normalised error is
    a [WorkerStopError], and exactly when the promise of the run is
    fulfilled.  A run whose attempts are retried and then reach such an
    attempt does fulfil its promise, given the fuel for these attempts. *)
Theorem done_once_on_success_or_stop b t :
  done_returns b ->
  (forall fuel, exists errs p w' tail,
     run b fuel (fresh t) = (p, w')
     /\ fails_retryably b t 0 errs
     /\ ending b t (length errs) p tail
     /\ observe (trace w')
        = retry_events (job t) (max_retry_delay b) (retryDelay t) errs ++ tail
     /\ dones (trace w') = match p with Fulfilled _ => 1%nat | _ => 0%nat end
     /\ (dones (trace w') <= 1)%nat)
  /\ (forall errs fuel,
        fails_retryably b t 0 errs ->
        (exists v, settle_attempt t (task b (length errs)) = Fulfilled v)
        \/ (exists reason err,
              settle_attempt t (task b (length errs)) = Rejected reason
              /\ normalize t reason = Throw err
              /\ instanceof err CWorkerStopError = true) ->
        exists r w',
          run b (S (length errs) + fuel) (fresh t) = (Fulfilled r, w')
          /\ dones (trace w') = 1%nat).
Proof.
  intros Hdone. split.
  - intros fuel.
    destruct (run_shape b Hdone fuel (fresh t))
      as (errs & p & w' & tail & evs & Hrun & Htr & Hobs & Hfail & Hend & _).
    cbn [fresh this task_calls trace app Nat.add] in *.
    exists errs, p, w', tail. rewrite Htr.
    split; [done|]. split; [done|]. split; [done|]. split; [done|].
    rewrite <- dones_observe, Hobs, dones_app, dones_retry_events.
    rewrite (dones_ending _ _ _ _ _ Hend). split; [done|]. destruct p; simpl; lia.
  - intros errs fuel Hfail [[v Hv]|(reason & err & Hrej & Hnorm & Hstop)];
      destruct (Hdone 0%nat) as [r Hr].
    + destruct (run_fails_then_succeeds b t errs v r fuel Hfail Hv Hr)
        as (w' & Hrun & Hobs & _).
      exists r, w'. split; [done|].
      by rewrite <- dones_observe, Hobs, dones_app, dones_retry_events.
    + destruct (run_fails_then_stops b t errs reason err r fuel Hfail Hrej Hnorm Hstop Hr)
        as (w' & Hrun & Hobs & _).
      exists r, w'. split; [done|].
      by rewrite <- dones_observe, Hobs, dones_app, dones_retry_events.
Qed.

Lemma done_once_on_success_or_stop_witness :
  exists r w',
    run (Samples.flaky 2) 3 (fresh Samples.worker3) = (Fulfilled r, w')
    /\ dones (trace w') = 1%nat.
Proof.
  refine (proj2 (done_once_on_success_or_stop (Samples.flaky 2) Samples.worker3 _)
            [Samples.boom_reported; Samples.boom_reported] 0%nat _ _).
  - intros n. by exists VUndefined.
  - simpl. repeat split; try (exists (Samples.wrapped Samples.boom); split; reflexivity).
  - left. by exists (VStr "ok").
Defined.

(** C3 as stated fails: when the callback throws at its first call, the
    task having returned, its error is handled like a failure of the task,
    which is run again, and the callback is called a second time. *)
Lemma done_called_twice :
  let w' := (run Samples.done_throws_once 2 (fresh Samples.worker3)).2 in
  dones (trace w') = 2%nat
  /\ observe (trace w')
     = [EvTask Samples.payload; EvDone; EvReport Samples.boom_reported; EvDelay 3;
        EvTask Samples.payload; EvDone].
Proof. split; vm_compute; reflexivity. Qed.

(** C6, for a callback that returns and a worker whose attempt counter is
    at 0.  A task that returns at its first call: one attempt, the
    callback, no report, no delay.  A task whose first [K] attempts fail
    and are retried and whose next attempt returns: [K + 1] attempts, [K]
    reports, then the callback, with the counter at [K + 1].  A task whose
    first attempt fails with what is normalised into a [WorkerStopError]:
    one attempt, one report, the callback, no delay. *)
Theorem attempts_reports_and_callback b t :
  done_returns b ->
  attempt t = 0 ->
  (forall v fuel,
     task b 0%nat = Returns v ->
     exists r w',
       run b (S fuel) (fresh t) = (Fulfilled r, w')
       /\ observe (trace w') = [EvTask (job t); EvDone]
       /\ attempt (this w') = 1
       /\ delays (trace w') = [] /\ reports (trace w') = []
       /\ dones (trace w') = 1%nat)
  /\ (forall errs v fuel,
        fails_retryably b t 0 errs ->
        task b (length errs) = Returns v ->
        exists r w',
          run b (S (length errs) + fuel) (fresh t) = (Fulfilled r, w')
          /\ observe (trace w')
             = retry_events (job t) (max_retry_delay b) (retryDelay t) errs
               ++ [EvTask (job t); EvDone]
          /\ attempt (this w') = Z.of_nat (length errs) + 1
          /\ tasks (trace w') = S (length errs)
          /\ reports (trace w') = errs
          /\ length (delays (trace w')) = length errs
          /\ dones (trace w') = 1%nat)
  /\ (forall reason err fuel,
        settle_attempt t (task b 0) = Rejected reason ->
        normalize t reason = Throw err ->
        instanceof err CWorkerStopError = true ->
        exists r w',
          run b (S fuel) (fresh t) = (Fulfilled r, w')
          /\ observe (trace w') = [EvTask (job t); EvReport err; EvDone]
          /\ attempt (this w') = 1
          /\ reports (trace w') = [err]
          /\ delays (trace w') = []
          /\ dones (trace w') = 1%nat).
Proof.
  intros Hdone Ha. destruct (Hdone 0%nat) as [r Hr].
  assert (Hsucc : forall errs v fuel,
             fails_retryably b t 0 errs ->
             task b (length errs) = Returns v ->
             exists w',
               run b (S (length errs) + fuel) (fresh t) = (Fulfilled r, w')
               /\ observe (trace w')
                  = retry_events (job t) (max_retry_delay b) (retryDelay t) errs
                    ++ [EvTask (job t); EvDone]
               /\ attempt (this w') = Z.of_nat (length errs) + 1).
  { intros errs v fuel Hfail Hv.
    destruct (run_fails_then_succeeds b t errs v r fuel Hfail) as (w' & Hrun & Hobs & Hatt);
      [by rewrite Hv|done|].
    exists w'. split; [done|]. split; [done|]. lia. }
  split; [|split].
  - intros v fuel Hv.
    destruct (Hsucc [] v fuel I Hv) as (w' & Hrun & Hobs & Hatt).
    exists r, w'. split; [done|]. split; [done|]. split; [done|].
    rewrite <- delays_observe, <- reports_observe, <- dones_observe, Hobs. by repeat split.
  - intros errs v fuel Hfail Hv.
    destruct (Hsucc errs v fuel Hfail Hv) as (w' & Hrun & Hobs & Hatt).
    exists r, w'. split; [done|]. split; [done|]. split; [done|].
    rewrite <- tasks_observe, <- reports_observe, <- delays_observe, <- dones_observe, Hobs.
    rewrite tasks_app, reports_app, delays_app, dones_app.
    rewrite tasks_retry_events, reports_retry_events, delays_retry_events,
      dones_retry_events.
    split; [unfold tasks; simpl; lia|]. split; [by rewrite app_nil_r|].
    split; [|done]. by rewrite app_nil_r, length_map, length_seq.
  - intros reason err fuel Hrej Hnorm Hstop.
    destruct (run_fails_then_stops b t [] reason err r fuel I Hrej Hnorm Hstop Hr)
      as (w' & Hrun & Hobs & Hatt).
    exists r, w'. split; [done|]. split; [done|]. split; [simpl in Hatt; lia|].
    rewrite <- delays_observe, <- reports_observe, <- dones_observe, Hobs. by repeat split.
Qed.

Lemma attempts_reports_and_callback_witness :
  exists r w',
    run (Samples.flaky 2) 3 (fresh Samples.worker3) = (Fulfilled r, w')
    /\ attempt (this w') = 3
    /\ tasks (trace w') = 3%nat
    /\ reports (trace w') = [Samples.boom_reported; Samples.boom_reported].
Proof.
  destruct (attempts_reports_and_callback (Samples.flaky 2) Samples.worker3)
    as (_ & H & _).
  - intros n. by exists VUndefined.
  - reflexivity.
  - destruct (H [Samples.boom_reported; Samples.boom_reported] (VStr "ok") 0%nat)
      as (r & w' & Hrun & _ & Hatt & Htasks & Hrep & _).
    + simpl. repeat split; try (exists (Samples.wrapped Samples.boom); split; reflexivity).
    + reflexivity.
    + exists r, w'. split; [exact Hrun|]. split; [exact Hatt|]. split; [exact Htasks|].
      exact Hrep.
Defined.

(** C6 as stated fails: with a task that always returns and a callback
    that throws at its first call, an error is reported, a retry delay is
    waited for and the task runs twice; the counter is at 2 when the
    callback returns. *)
Lemma success_retried_when_done_throws :
  let w' := (run Samples.done_throws_once 2 (fresh Samples.worker3)).2 in
  (forall n, exists v, task Samples.done_throws_once n = Returns v)
  /\ delays (trace w') = [3]
  /\ reports (trace w') = [Samples.boom_reported]
  /\ tasks (trace w') = 2%nat
  /\ attempt (this w') = 2.
Proof.
  split; [intros n; by exists (VStr "ok")|].
  repeat split; vm_compute; reflexivity.
Qed.

(** * Further properties of the run loop *)

(** ** The handlers as functions on worlds *)

Lemma extend_nil w : extend w [] = w.
Proof. destruct w. unfold extend. simpl. by rewrite app_nil_r. Qed.

Lemma extend_extend w evs1 evs2 : extend (extend w evs1) evs2 = extend w (evs1 ++ evs2).
Proof. unfold extend. simpl. by rewrite app_assoc. Qed.

Lemma incMonitor_eq b name extra w :
  _incMonitor b name extra w = (tt, extend w (increment_events b (this w) name extra)).
Proof.
  unfold _incMonitor, increment_events. destruct (monitor_disabled b).
  - by rewrite extend_nil.
  - reflexivity.
Qed.

Lemma createTimer_eq b w :
  _createTimer b w = (negb (monitor_disabled b), extend w (timer_events b (this w))).
Proof.
  unfold _createTimer, timer_events. run_unfold. destruct (monitor_disabled b); simpl.
  - by rewrite extend_nil.
  - reflexivity.
Qed.

Lemma start_attempt_eq b w :
  start_attempt b w
  = (settle_attempt (this w) (task b (task_calls w)), after_attempt w).
Proof.
  destruct_world w. unfold after_attempt, running_task. run_unfold.
  by rewrite <- !app_assoc.
Qed.

Lemma on_success_eq b result w :
  on_success b result w = (settle (done b (done_calls w)), after_success b w result).
Proof.
  destruct_world w. unfold after_success, increment_events. run_unfold.
  destruct (monitor_disabled b); by rewrite <- ?app_assoc.
Qed.

Lemma on_timeout_eq b err w :
  on_timeout b err w = (Rejected err, after_timeout b w err).
Proof.
  destruct_world w. unfold after_timeout, extend, increment_events. run_unfold.
  destruct (monitor_disabled b); by rewrite <- ?app_assoc.
Qed.

Lemma on_error_eq err w : on_error err w = (settle (normalize (this w) err), w).
Proof. reflexivity. Qed.

Lemma on_stop_eq b err w :
  on_stop b err w = (settle (done b (done_calls w)), after_stop b w err).
Proof.
  destruct_world w. unfold after_stop, increment_events. run_unfold.
  destruct (monitor_disabled b); by rewrite <- ?app_assoc.
Qed.

Lemma on_failure_eq b rerun err w :
  on_failure b rerun err w = rerun (after_failure b w err).
Proof.
  destruct_world w. unfold after_failure, increment_events. run_unfold.
  destruct (monitor_disabled b); by rewrite <- ?app_assoc.
Qed.

Lemma stop_timer_eq timer w :
  stop_timer timer w = (tt, extend w (if timer then [EvTimerStop] else [])).
Proof. destruct timer; simpl; [done|]. by rewrite extend_nil. Qed.

(** ** Rules for assertions *)

Lemma hoare_ret {A} (a : A) (P : world -> Prop) (Q : A -> world -> Prop) :
  (forall w, P w -> Q a w) -> hoare P (ret a) Q.
Proof. intros H w HP. by apply H. Qed.

Lemma hoare_bind {A B} (m : M A) (k : A -> M B) P Q S :
  hoare P m Q -> (forall a, hoare (Q a) (k a) S) -> hoare P (bind m k) S.
Proof.
  intros Hm Hk w HP. unfold bind. specialize (Hm w HP).
  destruct (m w) as [a w']. by apply Hk.
Qed.

Lemma hoare_weaken {A} (m : M A) (P P' : world -> Prop) (Q Q' : A -> world -> Prop) :
  hoare P' m Q' -> (forall w, P w -> P' w) -> (forall a w, Q' a w -> Q a w) ->
  hoare P m Q.
Proof. intros Hm HP HQ w Hw. by apply HQ, Hm, HP. Qed.

Lemma keeps_bind {A B} (m : M A) (k : A -> M B) I :
  keeps I m -> (forall a, keeps I (k a)) -> keeps I (bind m k).
Proof. intros Hm Hk. by eapply hoare_bind. Qed.

Lemma keeps_ret {A} (a : A) I : keeps I (ret a).
Proof. by apply hoare_ret. Qed.

Lemma keeps_then I h p : (forall v, keeps I (h v)) -> keeps I (then_ h p).
Proof. intros Hh. destruct p; simpl; auto using keeps_ret. Qed.

Lemma keeps_catch I filter h p : (forall e, keeps I (h e)) -> keeps I (catch_ filter h p).
Proof.
  intros Hh. destruct p; simpl; auto using keeps_ret.
  destruct (filter reason); auto using keeps_ret.
Qed.

Lemma keeps_finally I h p : keeps I h -> keeps I (finally_ h p).
Proof.
  intros Hh. destruct p; simpl; auto using keeps_ret;
    (apply keeps_bind; [done|intros; apply keeps_ret]).
Qed.

(** An invariant that the effects of the handlers keep is kept by [run]. *)
Section RunKeeps.
Variables (b : behaviour) (I : world -> Prop).
Hypothesis I_increment :
  forall w, I w -> I (extend w (increment_events b (this w) "ponos" None)).
Hypothesis I_timer : forall w, I w -> I (extend w (timer_events b (this w))).
Hypothesis I_attempt : forall w, I w -> I (after_attempt w).
Hypothesis I_success : forall w result, I w -> I (after_success b w result).
Hypothesis I_timeout : forall w err, I w -> I (after_timeout b w err).
Hypothesis I_stop : forall w err, I w -> I (after_stop b w err).
Hypothesis I_failure : forall w err, I w -> I (after_failure b w err).
Hypothesis I_stop_timer :
  monitor_disabled b = false -> forall w, I w -> I (extend w [EvTimerStop]).

Lemma keeps_incMonitor : keeps I (_incMonitor b "ponos" None).
Proof using I_increment. intros w Hw. rewrite incMonitor_eq. by apply I_increment. Qed.

Lemma keeps_start_attempt : keeps I (start_attempt b).
Proof using I_attempt. intros w Hw. rewrite start_attempt_eq. by apply I_attempt. Qed.

Lemma keeps_on_success result : keeps I (on_success b result).
Proof using I_success. intros w Hw. rewrite on_success_eq. by apply I_success. Qed.

Lemma keeps_on_timeout err : keeps I (on_timeout b err).
Proof using I_timeout. intros w Hw. rewrite on_timeout_eq. by apply I_timeout. Qed.

Lemma keeps_on_error err : keeps I (on_error err).
Proof. intros w Hw. by rewrite on_error_eq. Qed.

Lemma keeps_on_stop err : keeps I (on_stop b err).
Proof using I_stop. intros w Hw. rewrite on_stop_eq. by apply I_stop. Qed.

Lemma keeps_on_failure rerun err : keeps I rerun -> keeps I (on_failure b rerun err).
Proof using I_failure. intros Hrerun w Hw. rewrite on_failure_eq. by apply Hrerun, I_failure. Qed.

Lemma keeps_stop_timer : keeps I (stop_timer (negb (monitor_disabled b))).
Proof using I_stop_timer.
  intros w Hw. rewrite stop_timer_eq. cbn [snd].
  destruct (monitor_disabled b) eqn:Hm; cbn [negb].
  - by rewrite extend_nil.
  - by apply I_stop_timer.
Qed.

Lemma run_keeps fuel : keeps I (run b fuel).
Proof using All.
  induction fuel as [|fuel IH]; [apply keeps_ret|].
  cbn [run].
  apply keeps_bind; [apply keeps_incMonitor|intros _].
  apply (hoare_bind _ _ _ (fun timer w => I w /\ timer = negb (monitor_disabled b))).
  { intros w Hw. rewrite createTimer_eq. split; [by apply I_timer|done]. }
  intros timer w [Hw ->]. revert w Hw.
  apply keeps_bind; [apply keeps_start_attempt|intros p0].
  apply keeps_bind; [apply keeps_then, keeps_on_success|intros p1].
  apply keeps_bind; [apply keeps_catch, keeps_on_timeout|intros p2].
  apply keeps_bind; [apply keeps_catch, keeps_on_error|intros p3].
  apply keeps_bind; [apply keeps_catch, keeps_on_stop|intros p4].
  apply keeps_bind; [apply keeps_catch; intros; by apply keeps_on_failure|intros p5].
  apply keeps_finally, keeps_stop_timer.
Qed.

End RunKeeps.



Ltac forall_events :=
  repeat first [ apply Forall_nil_2
               | apply Forall_app; split
               | apply Forall_cons; split ].

(** ** What a run leaves alone *)


(** ** The counts of the effects *)

Lemma measures_app tr1 tr2 :
  measures (tr1 ++ tr2) = zip_with Nat.add (measures tr1) (measures tr2).
Proof.
  unfold measures, tasks, dones, reports, delays, completions, fatal_errors,
    timer_starts, timer_stops.
  rewrite !List.filter_app, !omap_app, !length_app. reflexivity.
Qed.

Lemma measures_delta tr tr' d1 d2 d3 d4 d5 d6 d7 d8 :
  measures tr' = zip_with Nat.add (measures tr) [d1; d2; d3; d4; d5; d6; d7; d8] ->
  tasks tr' = (tasks tr + d1)%nat /\ dones tr' = (dones tr + d2)%nat
  /\ length (reports tr') = (length (reports tr) + d3)%nat
  /\ length (delays tr') = (length (delays tr) + d4)%nat
  /\ completions tr' = (completions tr + d5)%nat
  /\ fatal_errors tr' = (fatal_errors tr + d6)%nat
  /\ timer_starts tr' = (timer_starts tr + d7)%nat
  /\ timer_stops tr' = (timer_stops tr + d8)%nat.
Proof. unfold measures. simpl. intros [= -> -> -> -> -> -> -> ->]. by repeat split. Qed.

Lemma measures_increment b t name extra :
  measures (increment_events b t name extra) = [0; 0; 0; 0; 0; 0; 0; 0]%nat.
Proof. unfold increment_events. by destruct (monitor_disabled b). Qed.

Ltac measure_trace :=
  cbn [trace];
  repeat match goal with
         | |- context [?x :: ?l ++ ?r] => change (x :: l ++ r) with ([x] ++ l ++ r)
         end;
  rewrite !measures_app, ?measures_increment; reflexivity.

Lemma counts_increment b w name extra :
  let tr := trace w in
  let tr' := trace (extend w (increment_events b (this w) name extra)) in
  tasks tr' = tasks tr /\ dones tr' = dones tr
  /\ length (reports tr') = length (reports tr)
  /\ length (delays tr') = length (delays tr)
  /\ completions tr' = completions tr /\ fatal_errors tr' = fatal_errors tr
  /\ timer_starts tr' = timer_starts tr /\ timer_stops tr' = timer_stops tr.
Proof.
  cbv zeta.
  destruct (measures_delta (trace w)
              (trace (extend w (increment_events b (this w) name extra)))
              0 0 0 0 0 0 0 0) as (? & ? & ? & ? & ? & ? & ? & ?).
  { unfold extend. measure_trace. }
  repeat split; lia.
Qed.

Lemma counts_timer b w :
  let tr := trace w in
  let tr' := trace (extend w (timer_events b (this w))) in
  tasks tr' = tasks tr /\ dones tr' = dones tr
  /\ length (reports tr') = length (reports tr)
  /\ length (delays tr') = length (delays tr)
  /\ completions tr' = completions tr /\ fatal_errors tr' = fatal_errors tr
  /\ timer_starts tr' = (timer_starts tr + if monitor_disabled b then 0 else 1)%nat
  /\ timer_stops tr' = timer_stops tr.
Proof.
  cbv zeta.
  destruct (measures_delta (trace w) (trace (extend w (timer_events b (this w))))
              0 0 0 0 0 0 (if monitor_disabled b then 0 else 1) 0)
    as (? & ? & ? & ? & ? & ? & ? & ?).
  { unfold extend, timer_events. cbn [trace]. rewrite measures_app.
    by destruct (monitor_disabled b). }
  repeat split; lia.
Qed.

Lemma counts_stop_timer w :
  let tr := trace w in
  let tr' := trace (extend w [EvTimerStop]) in
  tasks tr' = tasks tr /\ dones tr' = dones tr
  /\ length (reports tr') = length (reports tr)
  /\ length (delays tr') = length (delays tr)
  /\ completions tr' = completions tr /\ fatal_errors tr' = fatal_errors tr
  /\ timer_starts tr' = timer_starts tr /\ timer_stops tr' = S (timer_stops tr).
Proof.
  cbv zeta.
  destruct (measures_delta (trace w) (trace (extend w [EvTimerStop]))
              0 0 0 0 0 0 0 1) as (? & ? & ? & ? & ? & ? & ? & ?).
  { unfold extend. measure_trace. }
  repeat split; lia.
Qed.

Lemma counts_attempt w :
  let tr := trace w in
  let tr' := trace (after_attempt w) in
  tasks tr' = S (tasks tr) /\ dones tr' = dones tr
  /\ length (reports tr') = length (reports tr)
  /\ length (delays tr') = length (delays tr)
  /\ completions tr' = completions tr /\ fatal_errors tr' = fatal_errors tr
  /\ timer_starts tr' = timer_starts tr /\ timer_stops tr' = timer_stops tr.
Proof.
  cbv zeta.
  destruct (measures_delta (trace w) (trace (after_attempt w))
              1 0 0 0 0 0 0 0) as (? & ? & ? & ? & ? & ? & ? & ?).
  { unfold after_attempt. measure_trace. }
  repeat split; lia.
Qed.

Lemma counts_success b w result :
  let tr := trace w in
  let tr' := trace (after_success b w result) in
  tasks tr' = tasks tr /\ dones tr' = S (dones tr)
  /\ length (reports tr') = length (reports tr)
  /\ length (delays tr') = length (delays tr)
  /\ completions tr' = S (completions tr) /\ fatal_errors tr' = fatal_errors tr
  /\ timer_starts tr' = timer_starts tr /\ timer_stops tr' = timer_stops tr.
Proof.
  cbv zeta.
  destruct (measures_delta (trace w) (trace (after_success b w result))
              0 1 0 0 1 0 0 0) as (? & ? & ? & ? & ? & ? & ? & ?).
  { unfold after_success. measure_trace. }
  repeat split; lia.
Qed.

Lemma counts_timeout b w err :
  let tr := trace w in
  let tr' := trace (after_timeout b w err) in
  tasks tr' = tasks tr /\ dones tr' = dones tr
  /\ length (reports tr') = length (reports tr)
  /\ length (delays tr') = length (delays tr)
  /\ completions tr' = completions tr /\ fatal_errors tr' = fatal_errors tr
  /\ timer_starts tr' = timer_starts tr /\ timer_stops tr' = timer_stops tr.
Proof.
  cbv zeta.
  destruct (measures_delta (trace w) (trace (after_timeout b w err))
              0 0 0 0 0 0 0 0) as (? & ? & ? & ? & ? & ? & ? & ?).
  { unfold after_timeout, extend. cbn [trace].
    change (?x :: ?l) with ([x] ++ l).
    rewrite !measures_app, measures_increment. reflexivity. }
  repeat split; lia.
Qed.

Lemma counts_stop b w err :
  let tr := trace w in
  let tr' := trace (after_stop b w err) in
  tasks tr' = tasks tr /\ dones tr' = S (dones tr)
  /\ length (reports tr') = S (length (reports tr))
  /\ length (delays tr') = length (delays tr)
  /\ completions tr' = completions tr /\ fatal_errors tr' = S (fatal_errors tr)
  /\ timer_starts tr' = timer_starts tr /\ timer_stops tr' = timer_stops tr.
Proof.
  cbv zeta.
  destruct (measures_delta (trace w) (trace (after_stop b w err))
              0 1 1 0 0 1 0 0) as (? & ? & ? & ? & ? & ? & ? & ?).
  { unfold after_stop. measure_trace. }
  repeat split; lia.
Qed.

Lemma counts_failure b w err :
  let tr := trace w in
  let tr' := trace (after_failure b w err) in
  tasks tr' = tasks tr /\ dones tr' = dones tr
  /\ length (reports tr') = S (length (reports tr))
  /\ length (delays tr') = S (length (delays tr))
  /\ completions tr' = completions tr /\ fatal_errors tr' = fatal_errors tr
  /\ timer_starts tr' = timer_starts tr /\ timer_stops tr' = timer_stops tr.
Proof.
  cbv zeta.
  destruct (measures_delta (trace w) (trace (after_failure b w err))
              0 0 1 1 0 0 0 0) as (? & ? & ? & ? & ? & ? & ? & ?).
  { unfold after_failure. measure_trace. }
  repeat split; lia.
Qed.

Ltac use_counts :=
  intros;
  repeat match goal with H : _ /\ _ |- _ => destruct H end;
  try match goal with
      | |- context [after_attempt ?w] => pose proof (counts_attempt w) as Hc
      | |- context [after_success ?b ?w ?v] => pose proof (counts_success b w v) as Hc
      | |- context [after_timeout ?b ?w ?e] => pose proof (counts_timeout b w e) as Hc
      | |- context [after_stop ?b ?w ?e] => pose proof (counts_stop b w e) as Hc
      | |- context [after_failure ?b ?w ?e] => pose proof (counts_failure b w e) as Hc
      | |- context [extend ?w (increment_events ?b _ ?n ?x)] =>
          pose proof (counts_increment b w n x) as Hc
      | |- context [extend ?w (timer_events ?b _)] => pose proof (counts_timer b w) as Hc
      | |- context [extend ?w [EvTimerStop]] => pose proof (counts_stop_timer w) as Hc
      end;
  try match goal with
      | Hc : _ |- _ =>
          cbv zeta in Hc;
          destruct Hc as (Hc1 & Hc2 & Hc3 & Hc4 & Hc5 & Hc6 & Hc7 & Hc8);
          rewrite ?Hc1, ?Hc2, ?Hc3, ?Hc4, ?Hc5, ?Hc6, ?Hc7, ?Hc8
      end.

Lemma logged_attempts_increment b t name extra :
  logged_attempts (increment_events b t name extra) = [].
Proof. unfold increment_events. by destruct (monitor_disabled b). Qed.

Lemma logged_attempts_timer b t : logged_attempts (timer_events b t) = [].
Proof. unfold timer_events. by destruct (monitor_disabled b). Qed.

Lemma logged_attempts_app tr1 tr2 :
  logged_attempts (tr1 ++ tr2) = logged_attempts tr1 ++ logged_attempts tr2.
Proof. apply omap_app. Qed.

Lemma delays_increment b t name extra : delays (increment_events b t name extra) = [].
Proof. unfold increment_events. by destruct (monitor_disabled b). Qed.

Lemma delays_timer b t : delays (timer_events b t) = [].
Proof. unfold timer_events. by destruct (monitor_disabled b). Qed.



Ltac unfold_worlds :=
  unfold after_attempt, after_success, after_timeout, after_stop, after_failure,
    extend, running_task, attempted;
  cbn [this task_calls done_calls trace attempt job msTimeout queue retryDelay tid].

(** The events of a world, one list per handler. *)
Ltac split_events :=
  repeat match goal with
         | |- context [?x :: ?l ++ ?r] => change (x :: l ++ r) with ([x] ++ l ++ r)
         end;
  repeat match goal with
         | |- context [?x :: increment_events ?b ?t ?n ?e] =>
             change (x :: increment_events b t n e) with ([x] ++ increment_events b t n e)
         end.

(** X2. Whatever the task and the callback do, the attempt counter of the
    instance has grown by the number of calls of the task, and the attempt
    numbers logged with ['running task'] are the consecutive numbers from
    the initial counter on: the number logged is the counter before its
    increment. *)
Theorem run_counts_attempts b t fuel :
  let w' := (run b fuel (fresh t)).2 in
  let n := tasks (trace w') in
  attempt (this w') = attempt t + Z.of_nat n
  /\ task_calls w' = n
  /\ logged_attempts (trace w') = map (fun i => VNum (attempt t + Z.of_nat i)) (seq 0 n).
Proof.
  refine (run_keeps b (fun w =>
            attempt (this w) = attempt t + Z.of_nat (tasks (trace w))
            /\ task_calls w = tasks (trace w)
            /\ logged_attempts (trace w)
               = map (fun i => VNum (attempt t + Z.of_nat i)) (seq 0 (tasks (trace w))))
          _ _ _ _ _ _ _ _ fuel (fresh t) _).
  all: use_counts.
  all: unfold_worlds.
  all: split_events;
    rewrite ?logged_attempts_app, ?logged_attempts_increment, ?logged_attempts_timer;
    simpl (logged_attempts _); rewrite ?app_nil_r; try (split; [|split]); try done; try lia.
  - rewrite seq_S, map_app. simpl. congruence.
  - unfold tasks. simpl. lia.
Qed.

(** X3. The callback is called once for every successful attempt logged
    (['Task complete']) and once for every fatal error logged, and at no
    other point: the calls of [done] are as many as these log entries
    together. *)
Theorem run_counts_done b t fuel :
  let w' := (run b fuel (fresh t)).2 in
  done_calls w' = dones (trace w')
  /\ dones (trace w') = (completions (trace w') + fatal_errors (trace w'))%nat.
Proof.
  refine (run_keeps b (fun w =>
            done_calls w = dones (trace w)
            /\ dones (trace w) = (completions (trace w) + fatal_errors (trace w))%nat)
          _ _ _ _ _ _ _ _ fuel (fresh t) _).
  all: use_counts; unfold_worlds; try (split; [lia|lia]).
  by split.
Qed.

(** X4. Every retry delay and every fatal error comes with exactly one
    report to the error sink, and nothing else is reported: the reports are
    as many as the delays waited and the fatal errors logged together. *)
Theorem run_counts_reports b t fuel :
  let tr := trace (run b fuel (fresh t)).2 in
  length (reports tr) = (length (delays tr) + fatal_errors tr)%nat.
Proof.
  refine (run_keeps b (fun w =>
            length (reports (trace w))
            = (length (delays (trace w)) + fatal_errors (trace w))%nat)
          _ _ _ _ _ _ _ _ fuel (fresh t) _).
  all: use_counts; unfold_worlds; try lia.
  reflexivity.
Qed.

(** ** Monitoring *)

Lemma monitor_disabled_iff b :
  monitor_disabled b = true
  <-> exists s, env b !! "WORKER_MONITOR_DISABLED" = Some s /\ s <> "".
Proof.
  unfold monitor_disabled, getenv.
  destruct (env b !! "WORKER_MONITOR_DISABLED") as [s|]; simpl.
  - destruct (String.eqb_spec s ""); simpl.
    + split; [done|]. intros (s' & [= <-] & Hne). done.
    + split; [|done]. intros _. by exists s.
  - split; [done|]. by intros (s & ? & _).
Qed.

(** X5. With [WORKER_MONITOR_DISABLED] set to any non-empty string, be it
    ['false'] or ['0'], a run hands nothing to [monitor-dog]: no increment,
    no timer, and no timer is stopped. *)
Theorem run_disabled_monitoring b t fuel s :
  env b !! "WORKER_MONITOR_DISABLED" = Some s -> s <> "" ->
  Forall (fun e => is_monitor e = false) (trace (run b fuel (fresh t)).2).
Proof.
  intros Hs Hne.
  assert (Hm : monitor_disabled b = true) by (apply monitor_disabled_iff; eauto).
  refine (run_keeps b (fun w => Forall (fun e => is_monitor e = false) (trace w))
          _ _ _ _ _ _ _ _ fuel (fresh t) _).
  all: intros; unfold_worlds; unfold increment_events, timer_events;
    rewrite ?Hm; try congruence; forall_events; done.
Qed.

Lemma run_disabled_monitoring_witness :
  Forall (fun e => is_monitor e = false)
    (trace (run Scenarios.unmonitored 2 (fresh Samples.worker3)).2).
Proof.
  apply (run_disabled_monitoring Scenarios.unmonitored Samples.worker3 2 "false").
  - vm_compute. reflexivity.
  - discriminate.
Defined.

Lemma eventTags_result q : _eventTags q !! "result" = None.
Proof.
  destruct (_eventTags q !! "result") as [v|] eqn:E; [|done].
  destruct (eventTags_keys q "result") as [H|(i & _ & H)]; [by rewrite E|done|].
  unfold token_key in H. simpl in H. discriminate.
Qed.

(** X6. Every increment of a run is [ponos] with the tags of the queue, or
    [ponos.finish] with these tags and a [result] that is one of
    [success], [timeout-error], [fatal-error] and [task-error]; every timer
    is [ponos.timer] with the tags of the queue.  The tags of a queue have
    no [result] of their own, so the merge replaces none of them. *)
Theorem run_tags b t fuel :
  Forall (tagged (queue t)) (trace (run b fuel (fresh t)).2)
  /\ _eventTags (queue t) !! "result" = None.
Proof.
  split; [|apply eventTags_result].
  refine (proj2 (run_keeps b (fun w => queue (this w) = queue t
                                /\ Forall (tagged (queue t)) (trace w))
          _ _ _ _ _ _ _ _ fuel (fresh t) _)).
  all: intros; repeat match goal with H : _ /\ _ |- _ => destruct H end;
    unfold_worlds; unfold increment_events, timer_events, put;
    try destruct (monitor_disabled b);
    (split; [done|]); forall_events; try done; simpl; auto.
  all: try match goal with H : queue _ = _ |- _ => rewrite H end.
  all: try (rewrite <- insert_union_singleton_l).
  all: try (right; split; [done|]; eexists; split; [|reflexivity];
            unfold finish_results; set_solver).
  all: first [by left | by split].
Qed.

(** ** The delays of any run *)

(** X7. Whatever makes the attempts fail (errors of the task, timeouts,
    errors thrown by the callback), the delays waited are the iterates of
    the update rule from the initial delay, in order, and the instance
    holds the next one: the schedule depends on the number of retries
    only. *)
Theorem run_delay_schedule b t fuel :
  let w' := (run b fuel (fresh t)).2 in
  let delay := fun i => Nat.iter i (next_retryDelay (max_retry_delay b)) (retryDelay t) in
  let n := length (delays (trace w')) in
  retryDelay (this w') = delay n /\ delays (trace w') = map delay (seq 0 n).
Proof.
  cbv zeta.
  set (delay := fun i => Nat.iter i (next_retryDelay (max_retry_delay b)) (retryDelay t)).
  refine (run_keeps b (fun w =>
            retryDelay (this w) = delay (length (delays (trace w)))
            /\ delays (trace w) = map delay (seq 0 (length (delays (trace w)))))
          _ _ _ _ _ _ _ _ fuel (fresh t) _).
  all: use_counts.
  all: unfold_worlds.
  all: split_events; rewrite ?delays_app, ?delays_increment, ?delays_timer;
    simpl (delays _); rewrite ?app_nil_r; try (split; [done|done]).
  split.
  - match goal with H : retryDelay _ = _ |- _ => rewrite H end. reflexivity.
  - rewrite seq_S, map_app. simpl. congruence.
Qed.

(** ** The outcome of a run *)

Lemma finally_stop_timer_eq timer p w :
  finally_ (stop_timer timer) p w
  = (p, extend w (if settled p && timer then [EvTimerStop] else [])).
Proof.
  destruct p; cbn [finally_ settled andb]; unfold bind, ret;
    rewrite ?stop_timer_eq, ?extend_nil; done.
Qed.

Lemma then_eq h p w :
  then_ h p w = match p with Fulfilled v => h v w | _ => (p, w) end.
Proof. by destruct p. Qed.

Lemma catch_eq filter h p w :
  catch_ filter h p w
  = match p with
    | Rejected e => if filter e then h e w else (p, w)
    | _ => (p, w)
    end.
Proof. destruct p; try done. simpl. by destruct (filter reason). Qed.

(** A rule for the promise [run] returns.  [I] holds when [run] is
    entered, [A] of the promise of the attempt, [J] after the handler of
    success and the one of timeouts, [K] after [normalize] and the handler
    of fatal errors, [Q] of the promise returned; [g] is what the
    assertions remember from one call of [run] to the next. *)
Section RunRule.
Variables (b : behaviour) (G : Type) (next : G -> G).
Variables (I : G -> world -> Prop) (A J K Q : G -> promise -> world -> Prop).

Local Abbreviation stopped p w :=
  (extend w (if settled p && negb (monitor_disabled b) then [EvTimerStop] else [])).

Hypothesis R_fuel : forall g w, I g w -> Q g OutOfFuel w.
Hypothesis R_attempt : forall g w, I g w ->
  A g (settle_attempt (this w) (task b (task_calls w)))
    (after_attempt (extend (extend w (increment_events b (this w) "ponos" None))
                      (timer_events b (this w)))).
Hypothesis R_success : forall g v w,
  A g (Fulfilled v) w -> J g (settle (done b (done_calls w))) (after_success b w v).
Hypothesis R_no_success : forall g p w,
  A g p w -> (forall v, p <> Fulfilled v) -> J g p w.
Hypothesis R_timeout : forall g e w,
  J g (Rejected e) w -> instanceof e CTimeoutError = true ->
  J g (Rejected e) (after_timeout b w e).
Hypothesis R_error : forall g e w,
  J g (Rejected e) w -> K g (settle (normalize (this w) e)) w.
Hypothesis R_no_error : forall g p w,
  J g p w -> (forall e, p <> Rejected e) -> K g p w.
Hypothesis R_stop : forall g e w,
  K g (Rejected e) w -> instanceof e CWorkerStopError = true ->
  K g (settle (done b (done_calls w))) (after_stop b w e).
Hypothesis R_failure : forall g e w,
  K g (Rejected e) w -> I (next g) (after_failure b w e).
Hypothesis R_end : forall g p w,
  K g p w -> (forall e, p <> Rejected e) -> Q g p (stopped p w).
Hypothesis R_unwind : forall g p w, Q (next g) p w -> Q g p (stopped p w).

Lemma run_rule fuel : forall g, hoare (I g) (run b fuel) (Q g).
Proof using All.
  induction fuel as [|fuel IH]; intros g; [intros w Hw; by apply R_fuel|].
  cbn [run].
  apply (hoare_bind _ _ _ (fun _ w' =>
           exists w, I g w /\ w' = extend w (increment_events b (this w) "ponos" None))).
  { intros w Hw. rewrite incMonitor_eq. by exists w. }
  intros _.
  apply (hoare_bind _ _ _ (fun timer w' =>
           timer = negb (monitor_disabled b)
           /\ exists w, I g w
              /\ w' = extend (extend w (increment_events b (this w) "ponos" None))
                        (timer_events b (this w)))).
  { intros w' (w & Hw & ->). rewrite createTimer_eq. split; [done|]. by exists w. }
  intros timer.
  apply (hoare_bind _ _ _ (fun p w => timer = negb (monitor_disabled b) /\ A g p w)).
  { intros w' (Ht & w & Hw & ->). rewrite start_attempt_eq. split; [done|].
    exact (R_attempt g w Hw). }
  intros p0.
  apply (hoare_bind _ _ _ (fun p w => timer = negb (monitor_disabled b) /\ J g p w)).
  { intros w [Ht Hw]. split; [done|]. rewrite then_eq. destruct p0.
    - rewrite on_success_eq. by apply R_success.
    - by apply R_no_success.
    - by apply R_no_success.
    - by apply R_no_success. }
  intros p1.
  apply (hoare_bind _ _ _ (fun p w => timer = negb (monitor_disabled b) /\ J g p w)).
  { intros w [Ht Hw]. split; [done|]. rewrite catch_eq. destruct p1; try done.
    destruct (instanceof reason CTimeoutError) eqn:E; [|done].
    rewrite on_timeout_eq. by apply R_timeout. }
  intros p2.
  apply (hoare_bind _ _ _ (fun p w => timer = negb (monitor_disabled b) /\ K g p w)).
  { intros w [Ht Hw]. split; [done|]. rewrite catch_eq. destruct p2.
    - by apply R_no_error.
    - cbn [any]. rewrite on_error_eq. by apply R_error.
    - by apply R_no_error.
    - by apply R_no_error. }
  intros p3.
  apply (hoare_bind _ _ _ (fun p w => timer = negb (monitor_disabled b) /\ K g p w)).
  { intros w [Ht Hw]. split; [done|]. rewrite catch_eq. destruct p3; try done.
    destruct (instanceof reason CWorkerStopError) eqn:E; [|done].
    rewrite on_stop_eq. by apply R_stop. }
  intros p4.
  apply (hoare_bind _ _ _ (fun p w =>
           timer = negb (monitor_disabled b)
           /\ ((K g p w /\ forall e, p <> Rejected e) \/ Q (next g) p w))).
  { intros w [Ht Hw]. split; [done|]. rewrite catch_eq. destruct p4.
    - by left.
    - cbn [any]. rewrite on_failure_eq. right. by apply IH, (R_failure g reason).
    - by left.
    - by left. }
  intros p5 w [-> [[Hw Hp]|Hw]]; rewrite finally_stop_timer_eq; cbn [fst snd].
  - by apply R_end.
  - by apply R_unwind.
Qed.

End RunRule.

Lemma counts_begin b w :
  let tr := trace w in
  let tr' := trace (after_attempt
                      (extend (extend w (increment_events b (this w) "ponos" None))
                         (timer_events b (this w)))) in
  tasks tr' = S (tasks tr) /\ dones tr' = dones tr
  /\ length (reports tr') = length (reports tr)
  /\ length (delays tr') = length (delays tr)
  /\ completions tr' = completions tr /\ fatal_errors tr' = fatal_errors tr
  /\ timer_starts tr' = (timer_starts tr + if monitor_disabled b then 0 else 1)%nat
  /\ timer_stops tr' = timer_stops tr.
Proof.
  cbv zeta.
  pose proof (counts_increment b w "ponos" None) as H1.
  pose proof (counts_timer b (extend w (increment_events b (this w) "ponos" None))) as H2.
  pose proof (counts_attempt (extend (extend w (increment_events b (this w) "ponos" None))
                                (timer_events b (this w)))) as H3.
  cbv zeta in H1, H2, H3.
  change (this (extend w (increment_events b (this w) "ponos" None))) with (this w) in H2.
  repeat split; lia.
Qed.

Lemma counts_stopped b p w :
  let tr := trace w in
  let tr' := trace (extend w (if settled p && negb (monitor_disabled b)
                              then [EvTimerStop] else [])) in
  tasks tr' = tasks tr /\ dones tr' = dones tr
  /\ length (reports tr') = length (reports tr)
  /\ length (delays tr') = length (delays tr)
  /\ completions tr' = completions tr /\ fatal_errors tr' = fatal_errors tr
  /\ timer_starts tr' = timer_starts tr
  /\ timer_stops tr'
     = (timer_stops tr + if settled p && negb (monitor_disabled b) then 1 else 0)%nat.
Proof.
  cbv zeta. destruct (settled p && _).
  - pose proof (counts_stop_timer w) as H. cbv zeta in H. repeat split; lia.
  - rewrite extend_nil. repeat split; lia.
Qed.

Ltac use_rule_counts :=
  intros;
  repeat match goal with H : _ /\ _ |- _ => destruct H end;
  try match goal with
      | |- context [after_attempt (extend (extend ?w (increment_events ?b _ _ _)) _)] =>
          pose proof (counts_begin b w) as Hc
      | |- context [after_success ?b ?w ?v] => pose proof (counts_success b w v) as Hc
      | |- context [after_timeout ?b ?w ?e] => pose proof (counts_timeout b w e) as Hc
      | |- context [after_stop ?b ?w ?e] => pose proof (counts_stop b w e) as Hc
      | |- context [after_failure ?b ?w ?e] => pose proof (counts_failure b w e) as Hc
      | |- context [extend ?w (if settled ?p && negb (monitor_disabled ?b) then _ else _)] =>
          pose proof (counts_stopped b p w) as Hc
      end;
  try match goal with
      | Hc : _ |- _ =>
          cbv zeta in Hc;
          destruct Hc as (Hc1 & Hc2 & Hc3 & Hc4 & Hc5 & Hc6 & Hc7 & Hc8);
          rewrite ?Hc1, ?Hc2, ?Hc3, ?Hc4, ?Hc5, ?Hc6, ?Hc7, ?Hc8
      end.

Ltac not_fulfilled :=
  match goal with H : forall v, _ <> Fulfilled v |- _ => exfalso; by eapply H end.




Lemma settle_attempt_in_time t r : settle_attempt t r <> OutOfFuel.
Proof. unfold settle_attempt. destruct r; try done. by destruct (truthy _). Qed.

Lemma settle_normalize t e : exists err, settle (normalize t e) = Rejected err.
Proof. destruct (normalize_throws t e) as [err ->]. by exists err. Qed.

Lemma settle_Fulfilled c v : settle c = Fulfilled v -> c = Normal v.
Proof. destruct c; simpl; congruence. Qed.



Lemma settle_in_time c : settle c <> OutOfFuel.
Proof. by destruct c. Qed.

(** X8. The promise [run] returns is never rejected, whatever the task and
    the callback throw: the last handler catches every error and runs the
    worker again, so the promise is fulfilled, or pending, or the next
    attempt is still to come. *)
Theorem run_never_rejects b fuel w reason : (run b fuel w).1 <> Rejected reason.
Proof.
  pose (T := fun (_ : unit) (_ : world) => True).
  pose (A := fun (_ : unit) (_ : promise) (_ : world) => True).
  pose (Q := fun (_ : unit) (p : promise) (_ : world) => forall e, p <> Rejected e).
  refine (run_rule b unit id T A A A Q _ _ _ _ _ _ _ _ _ _ _ fuel tt w I reason);
    unfold T, A, Q; try done.
Qed.





(** X11. When the promise [run] returns is fulfilled, its value is what
    the last call of the callback returned: [run] resolves with the result
    of [done()]. *)
Theorem run_fulfils_with_done_result b t fuel v :
  (run b fuel (fresh t)).1 = Fulfilled v ->
  exists n, dones (trace (run b fuel (fresh t)).2) = S n /\ done b n = Normal v.
Proof.
  pose (T := fun (_ : unit) (w : world) => done_calls w = dones (trace w)).
  pose (A := fun (g : unit) (_ : promise) (w : world) => T g w).
  pose (Q := fun (g : unit) (p : promise) (w : world) =>
               T g w /\ forall v, p = Fulfilled v ->
                          exists n, done_calls w = S n /\ done b n = Normal v).
  assert (H : hoare (T tt) (run b fuel) (Q tt)).
  { refine (run_rule b unit id T A Q Q Q _ _ _ _ _ _ _ _ _ _ _ fuel tt); unfold Q, A, T.
    all: use_rule_counts.
    all: try (split; [unfold_worlds; first [done|lia|congruence]|]); try done.
    all: try (intros v' Hp).
    - exists (done_calls w). split; [done|]. by apply settle_Fulfilled.
    - not_fulfilled.
    - destruct (settle_normalize (this w) e) as [err Herr]. congruence.
    - exists (done_calls w). split; [done|]. by apply settle_Fulfilled. }
  intros Hp. destruct (H (fresh t) eq_refl) as [Hn Hq].
  destruct (Hq v Hp) as (n & Hcalls & Hdone). exists n. unfold T in Hn. by rewrite <- Hn.
Qed.

Lemma run_fulfils_with_done_result_witness :
  exists n, dones (trace (run (Samples.flaky 1) 3 (fresh Samples.worker3)).2) = S n
            /\ done (Samples.flaky 1) n = Normal VUndefined.
Proof.
  apply (run_fulfils_with_done_result (Samples.flaky 1) Samples.worker3 3 VUndefined).
  vm_compute. reflexivity.
Defined.

(** X12. With monitoring on, one timer is made for every call of the task
    (none with monitoring off).  The timers are stopped when the promise
    settles, all of them then; as long as the promise is pending, or the
    next attempt still to come, none is stopped. *)
Theorem run_timer_balance b t fuel :
  let p := (run b fuel (fresh t)).1 in
  let tr := trace (run b fuel (fresh t)).2 in
  timer_starts tr = (if monitor_disabled b then 0 else tasks tr)%nat
  /\ timer_stops tr = (if settled p then timer_starts tr else 0)%nat.
Proof.
  cbv zeta.
  pose (x := if monitor_disabled b then 0%nat else 1%nat).
  pose (T := fun (g : nat * nat) (w : world) =>
               timer_starts (trace w) = g.1 /\ timer_stops (trace w) = g.2
               /\ timer_starts (trace w) = (x * tasks (trace w))%nat).
  pose (A := fun (g : nat * nat) (_ : promise) (w : world) =>
               timer_starts (trace w) = (g.1 + x)%nat /\ timer_stops (trace w) = g.2
               /\ timer_starts (trace w) = (x * tasks (trace w))%nat).
  pose (Q := fun (g : nat * nat) (p : promise) (w : world) =>
               (g.1 <= timer_starts (trace w))%nat
               /\ timer_stops (trace w)
                  = (g.2 + if settled p then timer_starts (trace w) - g.1 else 0)%nat
               /\ timer_starts (trace w) = (x * tasks (trace w))%nat).
  assert (H : hoare (T (0, 0)%nat) (run b fuel) (Q (0, 0)%nat)).
  { refine (run_rule b (nat * nat) (fun g => (g.1 + x, g.2)%nat) T A A A Q
              _ _ _ _ _ _ _ _ _ _ _ fuel (0, 0)%nat); unfold Q, A, T, x.
    all: use_rule_counts; cbn [fst snd] in *.
    all: try (destruct (monitor_disabled b); cbn [negb andb] in *;
              rewrite ?andb_true_r, ?andb_false_r;
              cbn [settled]; try destruct (settled p); repeat split; lia). }
  destruct (H (fresh t)) as (_ & Hs & Ht).
  { unfold T. cbn [fresh trace fst snd]. repeat split.
    change (tasks []) with 0%nat. by rewrite Nat.mul_0_r. }
  rewrite Hs. split.
  - rewrite Ht. unfold x. destruct (monitor_disabled b); lia.
  - simpl. destruct (settled _); lia.
Qed.

(** X13. Every call of the task but the last is followed by exactly one
    retry delay: the calls are one more than the delays, and as many when
    the next attempt is still to come. *)
Theorem run_attempts_and_delays b t fuel :
  let p := (run b fuel (fresh t)).1 in
  let tr := trace (run b fuel (fresh t)).2 in
  tasks tr = (length (delays tr) + match p with OutOfFuel => 0 | _ => 1 end)%nat.
Proof.
  pose (T := fun (_ : unit) (w : world) => tasks (trace w) = length (delays (trace w))).
  pose (A := fun (_ : unit) (p : promise) (w : world) =>
               p <> OutOfFuel /\ tasks (trace w) = S (length (delays (trace w)))).
  pose (Q := fun (_ : unit) (p : promise) (w : world) =>
               tasks (trace w)
               = (length (delays (trace w)) + match p with OutOfFuel => 0 | _ => 1 end)%nat).
  refine (run_rule b unit id T A A A Q _ _ _ _ _ _ _ _ _ _ _ fuel tt (fresh t) _);
    unfold Q, A, T.
  all: use_rule_counts.
  all: try (split; [|lia]).
  all: try done; try lia.
  all: try apply settle_in_time.
  - apply settle_attempt_in_time.
  - destruct p; try done; lia.
Qed.



(** ** The instance the constructor leaves *)

Lemma constructor_instance child uuid env opts :
  all_required opts ->
  exists jt this0,
    get (prop opts "job") "tid" = Normal jt /\
    this0 !! "log"
    = Some (child (prop opts "log")
              (VObj CObject (<[ "tid" := or_else jt (VStr uuid) ]>
                               {[ "module" := VStr "ponos:worker" ]}))) /\
    (forall k, k <> "log" -> k <> "tid" ->
       this0 !! k = defaults (pick opts managed_fields) (option_defaults env) !! k) /\
    constructor child uuid env opts =
      let ms := parseInt (timeout_option env opts) (Some 10) in
      if negb (isNumber ms) then
        Throw (new_Error "Provided `msTimeout` is not an integer")
      else if less_than ms 0 then
        Throw (new_Error "Provided `msTimeout` is negative")
      else Normal (<[ "msTimeout" := ms ]> this0, truthy (runNow_option opts)).
Proof.
  intros Hreq. unfold constructor.
  rewrite (proj2 (check_required_ok _ _) Hreq). cbn [cbind].
  set (managed := defaults (pick opts managed_fields) (option_defaults env)).
  assert (Hjob : prop managed "job" = prop opts "job").
  { unfold prop. subst managed. rewrite managed_lookup_required; [done|].
    by apply (bool_decide_unpack _). }
  assert (Hlog : prop managed "log" = prop opts "log").
  { unfold prop. subst managed. rewrite managed_lookup_required; [done|].
    by apply (bool_decide_unpack _). }
  assert (Hex : exists_ (prop opts "job") = true).
  { unfold all_required in Hreq. rewrite Forall_forall in Hreq. apply Hreq.
    by apply (bool_decide_unpack _). }
  destruct (get_exists _ "tid" Hex) as [jt Hjt].
  rewrite Hjob, Hjt, Hlog. cbn [cbind].
  set (tid := or_else jt (VStr uuid)).
  set (this0 := <[ "log" := _ ]> managed ∪ {[ "tid" := tid ]}).
  assert (Hother : forall k, k <> "log" -> k <> "tid" -> this0 !! k = managed !! k).
  { intros k Hl Ht. subst this0.
    rewrite lookup_union_l by (by rewrite lookup_singleton_ne).
    by rewrite lookup_insert_ne. }
  exists jt, this0. split; [done|]. split; [|split; [done|]].
  - subst this0. rewrite lookup_union_l by (by rewrite lookup_singleton_ne).
    by rewrite lookup_insert_eq.
  - assert (Hms : prop this0 "msTimeout" = timeout_option env opts).
    { unfold prop. rewrite Hother by done. apply managed_timeout. }
    assert (Hrun : prop (<[ "msTimeout" := parseInt (prop this0 "msTimeout") (Some 10) ]> this0)
                     "runNow" = runNow_option opts).
    { unfold prop. rewrite lookup_insert_ne by done. rewrite Hother by done.
      apply managed_runNow. }
    rewrite Hrun, Hms. reflexivity.
Qed.

(** X15. A constructed worker holds the [done], [job], [queue] and [task]
    it was given, unchanged; its [log] is the child of the logger it was
    given, made with the [tid] of the worker and the module name
    ['ponos:worker']; its [errorCat] is the one it was given, or else the
    instance of the [error-cat] package; and its [msTimeout] is an integer
    that is not negative. *)
Theorem constructor_passes_options child uuid env opts this started :
  constructor child uuid env opts = Normal (this, started) ->
  (forall f, f ∈ ["done"; "job"; "queue"; "task"] ->
     exists_ (prop opts f) = true /\ this !! f = opts !! f)
  /\ (exists jt,
        get (prop opts "job") "tid" = Normal jt
        /\ this !! "log"
           = Some (child (prop opts "log")
                     (VObj CObject (<[ "tid" := or_else jt (VStr uuid) ]>
                                      {[ "module" := VStr "ponos:worker" ]}))))
  /\ prop this "errorCat"
     = (if exists_ (prop opts "errorCat") then prop opts "errorCat" else errorCat)
  /\ (exists n, this !! "msTimeout" = Some (VNum n) /\ 0 <= n).
Proof.
  intros Hnew.
  pose proof (constructor_Normal_required _ _ _ _ _ Hnew) as Hreq.
  destruct (constructor_instance child uuid env opts Hreq)
    as (jt & this0 & Hjt & Hlog & Hother & Heq).
  rewrite Heq in Hnew. cbv zeta in Hnew.
  destruct (parseInt_cases (timeout_option env opts) (Some 10)) as [Hms|[n Hms]];
    rewrite Hms in Hnew; cbn [isNumber negb less_than] in Hnew; [done|].
  destruct (Z.ltb_spec n 0) as [Hn|Hn]; [done|].
  injection Hnew as <- _.
  split; [|split; [|split]].
  - intros f Hf.
    assert (Hcase : f = "done" \/ f = "job" \/ f = "queue" \/ f = "task").
    { repeat (apply elem_of_cons in Hf as [->|Hf]; [tauto|]). by apply elem_of_nil in Hf. }
    assert (Hin : f ∈ required_fields).
    { destruct Hcase as [ -> | [ -> | [ -> | -> ]]]; by apply (bool_decide_unpack _). }
    split.
    { unfold all_required in Hreq. rewrite Forall_forall in Hreq. by apply Hreq. }
    assert (f <> "msTimeout" /\ f <> "log" /\ f <> "tid") as (? & ? & ?).
    { destruct Hcase as [ -> | [ -> | [ -> | -> ]]]; done. }
    rewrite lookup_insert_ne by done. rewrite Hother by done.
    by apply managed_lookup_required.
  - exists jt. split; [done|]. by rewrite lookup_insert_ne.
  - assert (Hprop : prop (<[ "msTimeout" := VNum n ]> this0) "errorCat"
                   = prop (defaults (pick opts managed_fields) (option_defaults env))
                       "errorCat").
    { unfold prop. rewrite lookup_insert_ne by done. by rewrite Hother. }
    rewrite Hprop.
    rewrite (managed_lookup_default env opts "errorCat" errorCat).
    + reflexivity.
    + by apply (bool_decide_unpack _).
    + unfold option_defaults. apply list_elem_of_here.
  - exists n. split; [apply lookup_insert_eq|done].
Qed.

Lemma constructor_passes_options_witness :
  exists this started,
    constructor Samples.child "generated" ∅ Samples.opts_ok = Normal (this, started)
    /\ this !! "queue" = Some (VStr "api.github.push")
    /\ this !! "log" = Some Samples.logger
    /\ prop this "errorCat" = errorCat
    /\ (exists n, this !! "msTimeout" = Some (VNum n) /\ 0 <= n).
Proof.
  assert (E : exists this,
             constructor Samples.child "generated" ∅ Samples.opts_ok = Normal (this, true)).
  { eexists. vm_compute. reflexivity. }
  destruct E as [this E].
  exists this, true. split; [exact E|].
  destruct (constructor_passes_options _ _ _ _ _ _ E)
    as (Hgiven & (jt & _ & Hlog) & Hcat & Hms).
  split; [|split; [|split]].
  - destruct (Hgiven "queue") as [_ Hq].
    + apply (bool_decide_unpack _). vm_compute. exact Logic.I.
    + rewrite Hq. vm_compute. reflexivity.
  - rewrite Hlog. vm_compute. reflexivity.
  - rewrite Hcat. vm_compute. reflexivity.
  - exact Hms.
Defined.
